(** * sway_tab_colors: rule matching, title formats and the applied-colours cache

    A shallow embedding of [sway_tab_colors.py].  The script keeps four
    module-level globals ([COLOR_RULES], [LAST_MTIME], [LAST_ERROR],
    [APPLIED_COLORS]); they become the fields of one record that is threaded
    through a state-and-exception monad.  What the script sends to the window
    manager and what it prints are recorded in the same record, so that
    statements about "commands issued" are statements about a list.

    Scope of the model.
    - Python values are the JSON scalars [None], [bool], [int] and [str].
      What [json.load] returns is a JSON array of objects whose members
      are such scalars, or a JSON object, or a scalar.  Floats, nested
      containers as member values, and an array with an element that is
      not an object are not represented.
    - A [str] is a Rocq [string]; [str.lower] folds the ASCII letters only.
    - The modification time of the file is an integer time stamp: the script
      only ever compares it.
    - Of [watch_config] one turn of its loop is modelled, and of the
      [__main__] block the start-up sequence; sleeping, the thread and the
      event subscription are not. *)

From stdpp Require Import gmap strings list fin_maps pretty.

(* ===================================================================== *)
(** ** Python values and exceptions *)
(* ===================================================================== *)

Inductive pyval :=
| PNone
| PBool (b : bool)
| PInt (z : Z)
| PStr (s : string).

#[global] Instance pyval_inhabited : Inhabited pyval := populate PNone.

#[global] Instance pyval_eq_dec : EqDecision pyval.
Proof. solve_decision. Defined.

(** The outcome of evaluating an expression: a value, or a raised
    exception, identified by its message [str(e)]. *)
Inductive result (A : Type) :=
| Ok (a : A)
| Raise (e : string).
Arguments Ok {A} a.
Arguments Raise {A} e.

#[global] Instance result_ret : MRet result := λ A a, Ok a.
#[global] Instance result_bind : MBind result :=
  λ A B f r, match r with Ok a => f a | Raise e => Raise e end.

(** [bool(v)] *)
Definition truthy (v : pyval) : bool :=
  match v with
  | PNone => false
  | PBool b => b
  | PInt z => negb (z =? 0)%Z
  | PStr s => negb (String.eqb s "")
  end.

(** [str(v)], as an f-string placeholder renders it. *)
Definition py_str (v : pyval) : string :=
  match v with
  | PNone => "None"
  | PBool true => "True"
  | PBool false => "False"
  | PInt z => pretty z
  | PStr s => s
  end.

(** [a == b].  A [bool] is an [int] in Python: [True == 1]. *)
Definition py_eq (a b : pyval) : bool :=
  match a, b with
  | PNone, PNone => true
  | PStr s, PStr t => String.eqb s t
  | PBool x, PBool y => Z.eqb (Z.b2z x) (Z.b2z y)
  | PBool x, PInt z => Z.eqb (Z.b2z x) z
  | PInt z, PBool y => Z.eqb z (Z.b2z y)
  | PInt x, PInt y => Z.eqb x y
  | _, _ => false
  end.

(** [x or ""] for an attribute that is a [str] or [None]. *)
Definition or_empty (x : option string) : string :=
  match x with
  | Some s => if String.eqb s "" then "" else s
  | None => ""
  end.

(** [d.get(k)]: the member, or [None]. *)
Definition py_get (d : gmap string pyval) (k : string) : pyval :=
  default PNone (d !! k).

(** [d[k]] *)
Definition getitem (d : gmap string pyval) (k : string) : result pyval :=
  match d !! k with
  | Some v => Ok v
  | None => Raise ("'" +:+ k +:+ "'")
  end.

(** [k in d] *)
Definition has_key (d : gmap string pyval) (k : string) : bool :=
  bool_decide (is_Some (d !! k)).

(* ===================================================================== *)
(** ** Strings *)
(* ===================================================================== *)

Definition dquote : Ascii.ascii := Ascii.ascii_of_nat 34.
Definition backslash : Ascii.ascii := Ascii.ascii_of_nat 92.

Definition lower_ascii (c : Ascii.ascii) : Ascii.ascii :=
  let n := Ascii.nat_of_ascii c in
  if (65 <=? n)%nat && (n <=? 90)%nat then Ascii.ascii_of_nat (n + 32) else c.

(** [s.lower()] *)
Fixpoint lower (s : string) : string :=
  match s with
  | EmptyString => EmptyString
  | String c s' => String (lower_ascii c) (lower s')
  end.

(** [v.lower()]: only a [str] has the method. *)
Definition py_lower (v : pyval) : result string :=
  match v with
  | PStr s => Ok (lower s)
  | PNone => Raise "'NoneType' object has no attribute 'lower'"
  | PBool _ => Raise "'bool' object has no attribute 'lower'"
  | PInt _ => Raise "'int' object has no attribute 'lower'"
  end.

(** [key in s] on two [str]: [key] occurs in [s] as a substring. *)
Fixpoint str_in (key s : string) : bool :=
  String.prefix key s ||
  match s with
  | EmptyString => false
  | String _ s' => str_in key s'
  end.

(** [s.replace(dquote, backslash + dquote)] *)
Fixpoint escape_dquotes (s : string) : string :=
  match s with
  | EmptyString => EmptyString
  | String c s' =>
      if Ascii.eqb c dquote
      then String backslash (String dquote (escape_dquotes s'))
      else String c (escape_dquotes s')
  end.

(* ===================================================================== *)
(** ** Windows, connections, the configuration file *)
(* ===================================================================== *)

(** A container of the window tree, as [i3ipc.Con] exposes it.  Every
    attribute is a [str] or [None].  [ipc_data] is the raw reply of the
    window manager; it is [None] here for an object without that attribute
    ([hasattr(window, 'ipc_data')] false). *)
Module Con.
Record t := mk {
  id : Z;
  app_id : option string;
  name : option string;
  window_class : option string;
  window_instance : option string;
  window_role : option string;
  ipc_data : option (gmap string pyval)
}.
End Con.

(** A connection to the window manager.  [command c] tells whether
    [ipc.command(c)] returns ([None]) or raises ([Some e]). *)
Module Connection.
Record t := mk {
  command : string → option string;
  get_tree : result (list Con.t)
}.
End Connection.

(** What [json.load] returns, and what [COLOR_RULES] therefore holds.
    The script never checks that it is a list of rules.  Of a JSON object
    only the keys matter, in the order of the file: they are what [len]
    counts and what a [for] statement goes through. *)
Inductive config_value :=
| Rules (rules : list (gmap string pyval))
| Keys (keys : list string)
| Scalar (v : pyval).

(** A list of rules is read as the loaded value it is. *)
#[warning="-uniform-inheritance"]
Coercion Rules : list >-> config_value.

(** [len(v)] (line 35) *)
Definition py_len (loaded : config_value) : result nat :=
  match loaded with
  | Rules rules => Ok (length rules)
  | Keys keys => Ok (length keys)
  | Scalar (PStr s) => Ok (String.length s)
  | Scalar PNone => Raise "object of type 'NoneType' has no len()"
  | Scalar (PBool _) => Raise "object of type 'bool' has no len()"
  | Scalar (PInt _) => Raise "object of type 'int' has no len()"
  end.

(** What the file system answers during one call of [load_config]. *)
Module ConfigFile.
Record t := mk {
  exists_ : bool;                                 (* os.path.exists *)
  getmtime : result Z;                            (* os.path.getmtime *)
  json_load : result config_value                 (* open + json.load *)
}.
End ConfigFile.

(* ===================================================================== *)
(** ** The globals, and the monad that threads them *)
(* ===================================================================== *)

Record World := mkWorld {
  COLOR_RULES : config_value;
  LAST_MTIME : Z;
  LAST_ERROR : string;
  APPLIED_COLORS : gmap Z (pyval * pyval);
  sent : list string;        (* arguments of ipc.command, oldest first *)
  stdout : list string;
  stderr : list string
}.

(** The state of a freshly started process (lines 12-14 and 51). *)
Definition initial_world : World :=
  mkWorld [] 0 "" ∅ [] [] [].

Definition set_COLOR_RULES (v : config_value) (s : World) : World :=
  mkWorld v (LAST_MTIME s) (LAST_ERROR s) (APPLIED_COLORS s)
          (sent s) (stdout s) (stderr s).
Definition set_LAST_MTIME (v : Z) (s : World) : World :=
  mkWorld (COLOR_RULES s) v (LAST_ERROR s) (APPLIED_COLORS s)
          (sent s) (stdout s) (stderr s).
Definition set_LAST_ERROR (v : string) (s : World) : World :=
  mkWorld (COLOR_RULES s) (LAST_MTIME s) v (APPLIED_COLORS s)
          (sent s) (stdout s) (stderr s).
Definition set_APPLIED_COLORS (v : gmap Z (pyval * pyval)) (s : World) : World :=
  mkWorld (COLOR_RULES s) (LAST_MTIME s) (LAST_ERROR s) v
          (sent s) (stdout s) (stderr s).
Definition add_sent (c : string) (s : World) : World :=
  mkWorld (COLOR_RULES s) (LAST_MTIME s) (LAST_ERROR s) (APPLIED_COLORS s)
          (sent s ++ [c]) (stdout s) (stderr s).
Definition add_stdout (l : string) (s : World) : World :=
  mkWorld (COLOR_RULES s) (LAST_MTIME s) (LAST_ERROR s) (APPLIED_COLORS s)
          (sent s) (stdout s ++ [l]) (stderr s).
Definition add_stderr (l : string) (s : World) : World :=
  mkWorld (COLOR_RULES s) (LAST_MTIME s) (LAST_ERROR s) (APPLIED_COLORS s)
          (sent s) (stdout s) (stderr s ++ [l]).

(** A statement: it reads and writes the globals, and returns or raises.
    A write made before an exception is raised stays made. *)
Definition M (A : Type) : Type := World → result A * World.

#[global] Instance M_ret : MRet M := λ A a s, (Ok a, s).
#[global] Instance M_bind : MBind M :=
  λ A B f m s,
    match m s with
    | (Ok a, s') => f a s'
    | (Raise e, s') => (Raise e, s')
    end.

Definition gets {A} (f : World → A) : M A := λ s, (Ok (f s), s).
Definition modify (f : World → World) : M unit := λ s, (Ok tt, f s).
Definition lift {A} (r : result A) : M A := λ s, (r, s).

(** [try: body except Exception as e: handler(e)] *)
Definition try_except {A} (body : M A) (handler : string → M A) : M A :=
  λ s,
    match body s with
    | (Ok a, s') => (Ok a, s')
    | (Raise e, s') => handler e s'
    end.

(** [for x in xs: body(x)] *)
Fixpoint for_each {A} (xs : list A) (body : A → M unit) : M unit :=
  match xs with
  | [] => mret tt
  | x :: xs' => body x ;; for_each xs' body
  end.

(** [ipc.command(cmd)] *)
Definition ipc_command (ipc : Connection.t) (cmd : string) : M unit :=
  modify (add_sent cmd) ;;
  match Connection.command ipc cmd with
  | None => mret tt
  | Some e => lift (Raise e)
  end.

(* ===================================================================== *)
(** ** [load_config] (lines 16-47) *)
(* ===================================================================== *)

Section LoadConfig.
(** [CONFIG_FILE] (lines 10-11) is computed from the environment. *)
Variable CONFIG_FILE : string.

(** The pattern of lines 21-23 and 44-46: print a message and remember
    it, unless it is the one remembered already. *)
Definition report (msg : string) : M unit :=
  last ← gets LAST_ERROR;
  if negb (String.eqb msg last)
  then modify (add_stderr msg) ;; modify (set_LAST_ERROR msg)
  else mret tt.

Definition load_config (file : ConfigFile.t) : M bool :=
  try_except
    (if negb (ConfigFile.exists_ file)
     then report ("Config file not found: " +:+ CONFIG_FILE) ;; mret false
     else
       mtime ← lift (ConfigFile.getmtime file);
       last ← gets LAST_MTIME;
       if (mtime <=? last)%Z
       then mret false
       else
         rules ← lift (ConfigFile.json_load file);
         modify (set_COLOR_RULES rules) ;;
         modify (set_LAST_MTIME mtime) ;;
         modify (set_LAST_ERROR "") ;;
         n ← lift (py_len rules);
         modify (add_stdout ("Loaded " +:+ pretty n
                             +:+ " rules from " +:+ CONFIG_FILE)) ;;
         modify (set_APPLIED_COLORS ∅) ;;
         mret true)
    (λ e, report ("Error loading config: " +:+ e) ;; mret false).
End LoadConfig.

(* ===================================================================== *)
(** ** [apply_title_format] (lines 53-86) *)
(* ===================================================================== *)

(** Lines 57-60: is the pair already recorded for this window? *)
Definition already_applied (cache : gmap Z (pyval * pyval))
    (window : Con.t) (bg_color text_color : pyval) : bool :=
  match cache !! Con.id window with
  | Some (last_bg, last_text) =>
      py_eq last_bg bg_color && py_eq last_text text_color
  | None => false
  end.

(** Lines 63-66.  Here a window without [ipc_data] has shell [None]. *)
Definition suffix_of (window : Con.t) : string :=
  let shell :=
    match Con.ipc_data window with
    | Some d => py_get d "shell"
    | None => PNone
    end in
  if py_eq shell (PStr "xwayland") then " [XWayland]" else "".

(** Lines 69-77: the value of [fmt]. *)
Definition title_fmt (window : Con.t) (bg_color text_color : pyval) : string :=
  let suffix := suffix_of window in
  if truthy bg_color || truthy text_color then
    let attrs := "" in
    let attrs :=
      if truthy bg_color
      then attrs +:+ " background='" +:+ py_str bg_color +:+ "'"
      else attrs in
    let attrs :=
      if truthy text_color
      then attrs +:+ " foreground='" +:+ py_str text_color +:+ "'"
      else attrs in
    "<span" +:+ attrs +:+ "> %title" +:+ suffix +:+ " </span>"
  else
    "%title" +:+ suffix.

(** Lines 80-82: the value of [cmd]. *)
Definition title_cmd (window : Con.t) (bg_color text_color : pyval) : string :=
  let fmt_escaped := escape_dquotes (title_fmt window bg_color text_color) in
  "[con_id=" +:+ pretty (Con.id window) +:+ "] title_format "
    +:+ String dquote (fmt_escaped +:+ String dquote "").

Definition apply_title_format (ipc : Connection.t) (window : Con.t)
    (bg_color text_color : pyval) : M unit :=
  cache ← gets APPLIED_COLORS;
  if already_applied cache window bg_color text_color
  then mret tt
  else
    ipc_command ipc (title_cmd window bg_color text_color) ;;
    cache ← gets APPLIED_COLORS;
    modify (set_APPLIED_COLORS (<[Con.id window := (bg_color, text_color)]> cache)).

(* ===================================================================== *)
(** ** [get_colors_for_window] (lines 88-122) *)
(* ===================================================================== *)

(** Lines 90-97: the dictionary [props]. *)
Definition props_of (window : Con.t) : gmap string pyval :=
  <["app_id" := PStr (or_empty (Con.app_id window))]>
  (<["title" := PStr (or_empty (Con.name window))]>
  (<["class" := PStr (or_empty (Con.window_class window))]>
  (<["instance" := PStr (or_empty (Con.window_instance window))]>
  (<["role" := PStr (or_empty (Con.window_role window))]>
  (<["shell" := match Con.ipc_data window with
                | Some d => py_get d "shell"
                | None => PStr ""
                end]> ∅))))).

(** [a or b] on conditions that may raise: [b] is evaluated only when [a]
    is false. *)
Definition or_else (a b : result bool) : result bool :=
  x ← a; if x : bool then mret true else b.

(** [key in props[name].lower()] *)
Definition key_in_prop (key : string) (props : gmap string pyval)
    (name : string) : result bool :=
  v ← getitem props name;
  s ← py_lower v;
  mret (str_in key s).

(** Lines 103-108: the value of [is_match] after the generic check. *)
Definition check_generic (props rule : gmap string pyval) : result bool :=
  if has_key rule "match" then
    v ← getitem rule "match";
    key ← py_lower v;
    hit ← or_else (key_in_prop key props "title")
           (or_else (key_in_prop key props "app_id")
                    (key_in_prop key props "class"));
    if negb hit then mret false else mret true
  else mret true.

Definition PROP_NAMES : list string :=
  ["app_id"; "title"; "class"; "instance"; "role"; "shell"].

(** Lines 112-117: the inner loop, started with the current [is_match];
    a failed constraint sets it to [False] and leaves the loop. *)
Fixpoint check_specific (props rule : gmap string pyval)
    (names : list string) (is_match : bool) : result bool :=
  match names with
  | [] => mret is_match
  | prop_name :: names' =>
      if has_key rule prop_name then
        rv ← getitem rule prop_name;
        wanted ← py_lower rv;
        pv ← getitem props prop_name;
        actual ← py_lower pv;
        if negb (str_in wanted actual)
        then mret false
        else check_specific props rule names' is_match
      else check_specific props rule names' is_match
  end.

(** One iteration of the outer loop, up to the test of line 119. *)
Definition rule_matches (props rule : gmap string pyval) : result bool :=
  is_match ← check_generic props rule;
  check_specific props rule PROP_NAMES is_match.

(** Line 120 *)
Definition rule_colors (rule : gmap string pyval) : pyval * pyval :=
  (py_get rule "bg_color", py_get rule "text_color").

(** Lines 99-122: the outer loop, over a list of rules. *)
Fixpoint scan_rule_list (props : gmap string pyval)
    (rules : list (gmap string pyval)) : result (pyval * pyval) :=
  match rules with
  | [] => mret (PNone, PNone)
  | rule :: rules' =>
      is_match ← rule_matches props rule;
      if is_match : bool
      then mret (rule_colors rule)
      else scan_rule_list props rules'
  end.

(** Lines 100-120 when [rule] is a [str]: a key of a JSON object, or a
    character of a JSON string.  The tests [name in rule] are substring
    tests then; the first that holds leads to [rule[name]], and if none
    holds line 120 calls [rule.get].  Either raises; the text of the first
    is the one of CPython 3.11 and later. *)
Definition str_rule_error (rule : string) : string :=
  if str_in "match" rule || existsb (λ name, str_in name rule) PROP_NAMES
  then "string indices must be integers, not 'str'"
  else "'str' object has no attribute 'get'".

(** Lines 99-122: [for rule in COLOR_RULES], whatever was loaded. *)
Definition scan_rules (props : gmap string pyval)
    (loaded : config_value) : result (pyval * pyval) :=
  match loaded with
  | Rules rules => scan_rule_list props rules
  | Keys [] => mret (PNone, PNone)
  | Keys (key :: _) => Raise (str_rule_error key)
  | Scalar (PStr EmptyString) => mret (PNone, PNone)
  | Scalar (PStr (String c _)) => Raise (str_rule_error (String c ""))
  | Scalar PNone => Raise "'NoneType' object is not iterable"
  | Scalar (PBool _) => Raise "'bool' object is not iterable"
  | Scalar (PInt _) => Raise "'int' object is not iterable"
  end.

Definition get_colors_for_window (window : Con.t) : M (pyval * pyval) :=
  rules ← gets COLOR_RULES;
  lift (scan_rules (props_of window) rules).

(* ===================================================================== *)
(** ** [apply_to_all_windows] and [on_window_event] (lines 124-144) *)
(* ===================================================================== *)

(** Lines 135-136, and again 141-142. *)
Definition match_and_apply (ipc : Connection.t) (window : Con.t) : M unit :=
  colors ← get_colors_for_window window;
  apply_title_format ipc window colors.1 colors.2.

Definition apply_to_all_windows (ipc : Connection.t) : M unit :=
  leaves ← lift (Connection.get_tree ipc);
  for_each leaves (match_and_apply ipc).

(** [event.container] is the window the event is about. *)
Definition on_window_event (ipc : Connection.t) (container : Con.t) : M unit :=
  try_except
    (match_and_apply ipc container)
    (λ e, modify (add_stderr ("Error: " +:+ e))).

(* ===================================================================== *)
(** ** [watch_config] and the start-up sequence (lines 146-174) *)
(* ===================================================================== *)

Section Watcher.
Variable CONFIG_FILE : string.

(** Lines 159-165: the handler around the sweep.  [current] is the value
    of the local [watcher_ipc] when the exception arrives; [connect_again]
    is what [i3ipc.Connection()] of line 163 does. *)
Definition watcher_handler (connect_again : result Connection.t)
    (current : option Connection.t) (e : string) : M (option Connection.t) :=
  modify (add_stderr ("Error applying changes in watcher: " +:+ e)) ;;
  mret (match connect_again with
        | Ok c => Some c
        | Raise _ => current
        end).

(** Line 158 under the [try] of line 155, with [watcher_ipc] already set. *)
Definition watcher_sweep (connect_again : result Connection.t)
    (c : Connection.t) : M (option Connection.t) :=
  try_except
    (apply_to_all_windows c ;; mret (Some c))
    (watcher_handler connect_again (Some c)).

(** One turn of the loop of lines 151-165, after the [sleep]: it takes the
    value of the local [watcher_ipc] and returns its new value.  [connect]
    is what [i3ipc.Connection()] of line 157 does. *)
Definition watch_config_tick (file : ConfigFile.t)
    (connect connect_again : result Connection.t)
    (watcher_ipc : option Connection.t) : M (option Connection.t) :=
  changed ← load_config CONFIG_FILE file;
  if changed : bool then
    modify (add_stdout "Config changed, reapplying to all windows...") ;;
    match watcher_ipc with
    | Some c => watcher_sweep connect_again c
    | None =>
        match connect with
        | Ok c => watcher_sweep connect_again c
        | Raise e => watcher_handler connect_again None e
        end
    end
  else mret watcher_ipc.

(** Lines 169-174: the initial load, the connection, the first sweep.
    Nothing catches an exception here. *)
Definition main_startup (file : ConfigFile.t)
    (connect : result Connection.t) : M Connection.t :=
  load_config CONFIG_FILE file ;;
  ipc ← lift connect;
  apply_to_all_windows ipc ;;
  mret ipc.
End Watcher.

(* ===================================================================== *)
(** ** Vocabulary of the statements *)
(* ===================================================================== *)

(** [key] occurs in [s] as a substring. *)
Definition occurs_in (key s : string) : Prop :=
  ∃ pre post, s = pre +:+ key +:+ post.

(** The reading of "first match wins" that compares any two matching
    rules: whenever the rules at positions [i < j] both match the window,
    the decision is the colour pair of rule [i]. *)
Definition earlier_of_any_two_wins
    (rules : list (gmap string pyval)) (window : Con.t) : Prop :=
  ∀ (s : World) (i j : nat) (ri rj : gmap string pyval),
    COLOR_RULES s = rules →
    i < j →
    rules !! i = Some ri →
    rules !! j = Some rj →
    rule_matches (props_of window) ri = Ok true →
    rule_matches (props_of window) rj = Ok true →
    get_colors_for_window window s = (Ok (rule_colors ri), s).

(** The lowercased [key] occurs in the window's lowercased title, app_id
    or class. *)
Definition key_occurs (key : string) (window : Con.t) : Prop :=
  occurs_in (lower key) (lower (or_empty (Con.name window))) ∨
  occurs_in (lower key) (lower (or_empty (Con.app_id window))) ∨
  occurs_in (lower key) (lower (or_empty (Con.window_class window))).

(** The rule has none of the six specific constraint fields. *)
Definition no_specific_fields (rule : gmap string pyval) : Prop :=
  Forall (λ n, rule !! n = None) PROP_NAMES.

(** The statement left the rules, the time stamp and the remembered
    error as they were. *)
Definition same_config (s s' : World) : Prop :=
  COLOR_RULES s' = COLOR_RULES s ∧
  LAST_MTIME s' = LAST_MTIME s ∧
  LAST_ERROR s' = LAST_ERROR s.

(** The command the rules call for on a window: none when evaluating the
    rules raises. *)
Definition commands_for (rules : config_value)
    (window : Con.t) : list string :=
  match scan_rules (props_of window) rules with
  | Ok d => [title_cmd window d.1 d.2]
  | Raise _ => []
  end.

(** The two messages of [load_config] (lines 20 and 43). *)
Definition not_found_msg (CONFIG_FILE : string) : string :=
  "Config file not found: " +:+ CONFIG_FILE.
Definition load_error_msg (e : string) : string :=
  "Error loading config: " +:+ e.

(** Every double quote of [s] comes right after a backslash;
    [after_backslash] tells whether the character before [s] is one. *)
Fixpoint quotes_escaped (after_backslash : bool) (s : string) : bool :=
  match s with
  | EmptyString => true
  | String c s' =>
      if Ascii.eqb c dquote
      then after_backslash && quotes_escaped false s'
      else quotes_escaped (Ascii.eqb c backslash) s'
  end.

(** A colour as the configuration is meant to give it: a [str], or absent. *)
Definition is_color (v : pyval) : Prop :=
  v = PNone ∨ ∃ c, v = PStr c.

(** Every constraint the rule carries is a [str]. *)
Definition string_constraints (rule : gmap string pyval) : Prop :=
  ∀ n v, n ∈ "match" :: PROP_NAMES → rule !! n = Some v → ∃ x, v = PStr x.

(** The snapshot holds a [str] under each of the six names. *)
Definition string_props (props : gmap string pyval) : Prop :=
  ∀ n, n ∈ PROP_NAMES → ∃ a, props !! n = Some (PStr a).

(** The decision the rules give a window, when evaluating them does
    not raise. *)
Definition decided (rules : config_value) (window : Con.t)
    (d : pyval * pyval) : Prop :=
  scan_rules (props_of window) rules = Ok d.

(** A statement keeps the cache entries it finds. *)
Definition keeps_cache_entries (m : M unit) : Prop :=
  ∀ (s : World) (k : Z),
    is_Some (APPLIED_COLORS s !! k) → is_Some (APPLIED_COLORS (m s).2 !! k).

(* ===================================================================== *)
(** ** Concrete rules, windows and connections used in the examples *)
(* ===================================================================== *)

Module Ex.
Definition rule_red : gmap string pyval := {["bg_color" := PStr "red"]}.
Definition rule_blue : gmap string pyval := {["bg_color" := PStr "blue"]}.
Definition rule_green : gmap string pyval := {["bg_color" := PStr "green"]}.
Definition rule_term : gmap string pyval :=
  <["app_id" := PStr "term"]> {["bg_color" := PStr "#222"]}.
Definition rule_firefox : gmap string pyval :=
  <["match" := PStr "firefox"]> {["bg_color" := PStr "#ff6600"]}.
Definition rule_shell : gmap string pyval :=
  <["shell" := PStr "xwayland"]> {["text_color" := PStr "white"]}.
Definition rule_empty_shell : gmap string pyval :=
  <["shell" := PStr ""]> {["bg_color" := PStr "red"]}.
Definition rule_no_constraint : gmap string pyval :=
  {["bg_color" := PStr "red"]}.

(** A native window whose reply carries a [shell] member. *)
Definition browser : Con.t :=
  Con.mk 7 (Some "navigator") (Some "Example - Mozilla Firefox") None None None
         (Some {["shell" := PStr "xdg_shell"]}).
(** An X11 window running under the compatibility layer. *)
Definition xterm : Con.t :=
  Con.mk 8 None (Some "xterm") (Some "XTerm") (Some "xterm") None
         (Some {["shell" := PStr "xwayland"]}).
(** A window whose reply has no [shell] member (i3, or an older sway). *)
Definition no_shell : Con.t :=
  Con.mk 9 (Some "kitty") (Some "kitty") None None None (Some ∅).

Definition ipc_ok : Connection.t :=
  Connection.mk (λ _, None) (Ok [browser; xterm]).
Definition ipc_broken : Connection.t :=
  Connection.mk (λ _, Some "[Errno 32] Broken pipe") (Raise "[Errno 32] Broken pipe").

(** The same rules written again later. *)
Definition file_rewritten : ConfigFile.t :=
  ConfigFile.mk true (Ok 200%Z) (Ok (Rules [rule_firefox])).
(** A file that is valid JSON but holds a number, not a list of rules. *)
Definition file_number : ConfigFile.t :=
  ConfigFile.mk true (Ok 200%Z) (Ok (Scalar (PInt 5))).
Definition file_malformed : ConfigFile.t :=
  ConfigFile.mk true (Ok 200%Z)
    (Raise "Expecting value: line 1 column 1 (char 0)").

(** Rules [rule_firefox] loaded at time 100 and applied to [browser]. *)
Definition world_applied : World :=
  mkWorld [rule_firefox] 100 ""
          {[7%Z := (PStr "#ff6600", PNone)]}
          [title_cmd browser (PStr "#ff6600") PNone]
          ["Loaded 1 rules from tab_colors.json"] [].
(** The same rules, nothing applied yet. *)
Definition world_loaded : World :=
  mkWorld [rule_firefox] 100 "" ∅ [] ["Loaded 1 rules from tab_colors.json"] [].
End Ex.

(* ===================================================================== *)
(** ** Proof automation *)
(* ===================================================================== *)

(** Expose the state-passing behind a statement of [M]. *)
Ltac unfold_M :=
  unfold match_and_apply, apply_title_format, get_colors_for_window,
    ipc_command, report, try_except, gets, modify, lift,
    mbind, mret, M_bind, M_ret in *.

(* ===================================================================== *)
(** * Properties *)
(* ===================================================================== *)

(** ** Strings *)

Lemma append_cons (c : Ascii.ascii) (a b : string) :
  String c a +:+ b = String c (a +:+ b).
Proof. reflexivity. Qed.

Lemma append_assoc (a b c : string) : (a +:+ b) +:+ c = a +:+ (b +:+ c).
Proof.
  induction a as [|x a IH]; [done |].
  by rewrite !append_cons, IH.
Qed.

Lemma prefix_spec (a s : string) :
  String.prefix a s = true ↔ ∃ post, s = a +:+ post.
Proof.
  revert s; induction a as [|c a IH]; intros s.
  - destruct s; simpl; split; eauto.
  - destruct s as [|d s]; simpl.
    + split; [discriminate | intros [post H]; discriminate].
    + destruct (Ascii.ascii_dec c d) as [->|Hne].
      * rewrite IH. split; intros [post H]; exists post.
        -- by rewrite append_cons, H.
        -- rewrite append_cons in H. by injection H.
      * split; [discriminate |].
        intros [post H]. rewrite append_cons in H. injection H. congruence.
Qed.

Lemma str_in_spec (key s : string) :
  str_in key s = true ↔ occurs_in key s.
Proof.
  unfold occurs_in. induction s as [|c s IH]; cbn [str_in].
  - rewrite orb_false_r, prefix_spec. split.
    + intros [post H]. exists "", post. exact H.
    + intros [pre [post H]]. destruct pre as [|d pre].
      * eauto.
      * rewrite append_cons in H. discriminate.
  - rewrite orb_true_iff, prefix_spec, IH. split.
    + intros [[post H] | [pre [post H]]].
      * exists "", post. exact H.
      * exists (String c pre), post. by rewrite append_cons, H.
    + intros [pre [post H]]. destruct pre as [|d pre].
      * left. eauto.
      * right. rewrite append_cons in H. injection H as _ H. eauto.
Qed.

Lemma str_in_empty (s : string) : str_in "" s = true.
Proof. destruct s; reflexivity. Qed.

Lemma escape_dquotes_append (a b : string) :
  escape_dquotes (a +:+ b) = escape_dquotes a +:+ escape_dquotes b.
Proof.
  induction a as [|c a IH]; [done |].
  rewrite append_cons. cbn [escape_dquotes].
  destruct (Ascii.eqb c dquote); by rewrite !append_cons, IH.
Qed.

Lemma occurs_in_append_r (key s post : string) :
  occurs_in key s → occurs_in key (s +:+ post).
Proof.
  intros (p & q & ->). exists p, (q +:+ post).
  by rewrite !append_assoc.
Qed.

Lemma occurs_in_append_l (key s pre : string) :
  occurs_in key s → occurs_in key (pre +:+ s).
Proof.
  intros (p & q & ->). exists (pre +:+ p), q.
  by rewrite !append_assoc.
Qed.

(** ** Python equality on the modelled values *)

Lemma py_eq_refl (v : pyval) : py_eq v v = true.
Proof.
  destruct v as [|b|z|s]; simpl; try done.
  - apply Z.eqb_refl.
  - apply Z.eqb_refl.
  - apply String.eqb_refl.
Qed.

(** ** The dictionary [props] *)

Lemma props_app_id w : props_of w !! "app_id" = Some (PStr (or_empty (Con.app_id w))).
Proof. reflexivity. Qed.
Lemma props_title w : props_of w !! "title" = Some (PStr (or_empty (Con.name w))).
Proof. reflexivity. Qed.
Lemma props_class w :
  props_of w !! "class" = Some (PStr (or_empty (Con.window_class w))).
Proof. reflexivity. Qed.
Lemma props_instance w :
  props_of w !! "instance" = Some (PStr (or_empty (Con.window_instance w))).
Proof. reflexivity. Qed.
Lemma props_role w :
  props_of w !! "role" = Some (PStr (or_empty (Con.window_role w))).
Proof. reflexivity. Qed.
Lemma props_shell w :
  props_of w !! "shell" =
  Some (match Con.ipc_data w with
        | Some d => py_get d "shell"
        | None => PStr ""
        end).
Proof. reflexivity. Qed.

Lemma key_in_prop_str key props name s :
  props !! name = Some (PStr s) →
  key_in_prop key props name = Ok (str_in key (lower s)).
Proof. intros H. unfold key_in_prop, getitem. by rewrite H. Qed.

Lemma has_key_true (d : gmap string pyval) k v :
  d !! k = Some v → has_key d k = true.
Proof. intros H. unfold has_key. apply bool_decide_eq_true. by rewrite H. Qed.

Lemma has_key_false (d : gmap string pyval) k :
  d !! k = None → has_key d k = false.
Proof.
  intros H. unfold has_key. apply bool_decide_eq_false.
  rewrite H. by intros [? ?].
Qed.

(** ** The generic check *)

(** With a [str] under [match], the generic check never raises and
    computes the three-way disjunction. *)
Lemma check_generic_str rule w key :
  rule !! "match" = Some (PStr key) →
  check_generic (props_of w) rule =
  Ok (str_in (lower key) (lower (or_empty (Con.name w)))
      || str_in (lower key) (lower (or_empty (Con.app_id w)))
      || str_in (lower key) (lower (or_empty (Con.window_class w)))).
Proof.
  intros H. unfold check_generic.
  rewrite (has_key_true _ _ _ H). unfold getitem at 1. rewrite H.
  cbn [mbind result_bind py_lower].
  rewrite (key_in_prop_str _ _ _ _ (props_title w)).
  rewrite (key_in_prop_str _ _ _ _ (props_app_id w)).
  rewrite (key_in_prop_str _ _ _ _ (props_class w)).
  unfold or_else, mbind, mret, result_bind, result_ret.
  destruct (str_in (lower key) (lower (or_empty (Con.name w))));
    destruct (str_in (lower key) (lower (or_empty (Con.app_id w))));
    destruct (str_in (lower key) (lower (or_empty (Con.window_class w))));
    reflexivity.
Qed.

Lemma check_generic_absent rule props :
  rule !! "match" = None → check_generic props rule = Ok true.
Proof. intros H. unfold check_generic. by rewrite (has_key_false _ _ H). Qed.

(** ** The specific constraints *)

(** Once [is_match] is false, the inner loop cannot make the rule match. *)
Lemma check_specific_false props rule names :
  check_specific props rule names false ≠ Ok true.
Proof.
  induction names as [|n names IH]; simpl; [discriminate |].
  destruct (has_key rule n); [| exact IH].
  destruct (getitem rule n) as [rv|]; simpl; [| discriminate].
  destruct (py_lower rv) as [wanted|]; simpl; [| discriminate].
  destruct (getitem props n) as [pv|]; simpl; [| discriminate].
  destruct (py_lower pv) as [actual|]; simpl; [| discriminate].
  destruct (str_in wanted actual); simpl; [exact IH | discriminate].
Qed.

(** A rule that has none of the names leaves [is_match] as it was. *)
Lemma check_specific_no_keys props rule names is_match :
  Forall (λ n, rule !! n = None) names →
  check_specific props rule names is_match = Ok is_match.
Proof.
  induction 1 as [|n names Hn _ IH]; simpl; [done |].
  by rewrite (has_key_false _ _ Hn).
Qed.

(** One step of the inner loop on a constraint that holds. *)
Lemma check_specific_step props rule n names is_match wanted actual :
  rule !! n = Some (PStr wanted) →
  props !! n = Some (PStr actual) →
  str_in (lower wanted) (lower actual) = true →
  check_specific props rule (n :: names) is_match =
  check_specific props rule names is_match.
Proof.
  intros Hr Hp Hin. simpl. rewrite (has_key_true _ _ _ Hr).
  unfold getitem. rewrite Hr, Hp. simpl. by rewrite Hin.
Qed.

(** ** The outer loop *)

Lemma scan_rules_first_match props before rule after :
  Forall (λ r, rule_matches props r = Ok false) before →
  rule_matches props rule = Ok true →
  scan_rules props (before ++ rule :: after) = Ok (rule_colors rule).
Proof.
  intros Hbefore Hrule.
  induction Hbefore as [|r before Hr _ IH]; simpl.
  - by rewrite Hrule.
  - by rewrite Hr.
Qed.

Lemma scan_rules_no_match props rules :
  Forall (λ r, rule_matches props r = Ok false) rules →
  scan_rules props rules = Ok (PNone, PNone).
Proof.
  induction 1 as [|r rules Hr _ IH]; simpl; [done |].
  by rewrite Hr.
Qed.

Lemma get_colors_for_window_eq w s :
  get_colors_for_window w s = (scan_rules (props_of w) (COLOR_RULES s), s).
Proof. reflexivity. Qed.

(* ===================================================================== *)
(** ** The matcher: first match wins *)
(* ===================================================================== *)

(** C1, the sentence as written, refuted.  Three unconditional rules, red,
    blue and green: the rules at positions 1 and 2 both match the window,
    and the decision is red, the colour of position 0, not blue. *)
Lemma earlier_of_any_two_wins_fails :
  ¬ earlier_of_any_two_wins [Ex.rule_red; Ex.rule_blue; Ex.rule_green] Ex.browser.
Proof.
  intros H.
  specialize (H (set_COLOR_RULES [Ex.rule_red; Ex.rule_blue; Ex.rule_green]
                                 initial_world)
                1 2 Ex.rule_blue Ex.rule_green).
  discriminate H; first [reflexivity | lia].
Qed.

(** C1, amended: if the rules at positions [i < j] both match the window
    and every rule before position [i] evaluates to a non-match, then the
    decision is the colour pair of rule [i]; and it stays that pair whatever
    is put in place of the rules after position [i], which are therefore
    not consulted. *)
Theorem first_match_wins (rules : list (gmap string pyval)) (window : Con.t)
    (s : World) (i j : nat) (ri rj : gmap string pyval) :
  COLOR_RULES s = rules →
  i < j →
  rules !! i = Some ri →
  rules !! j = Some rj →
  rule_matches (props_of window) ri = Ok true →
  rule_matches (props_of window) rj = Ok true →
  (∀ k rk, k < i → rules !! k = Some rk →
           rule_matches (props_of window) rk = Ok false) →
  get_colors_for_window window s = (Ok (rule_colors ri), s) ∧
  ∀ (later : list (gmap string pyval)) (s' : World),
    COLOR_RULES s' = take i rules ++ ri :: later →
    get_colors_for_window window s' = (Ok (rule_colors ri), s').
Proof.
  intros Hs _ Hi _ Hmi _ Hbefore.
  assert (Forall (λ r, rule_matches (props_of window) r = Ok false)
                 (take i rules)) as Hpre.
  { apply Forall_lookup_2. intros k rk Hk.
    apply lookup_take_Some in Hk as [Hk Hlt]. eauto. }
  split.
  - rewrite get_colors_for_window_eq, Hs.
    rewrite <- (take_drop_middle rules i ri Hi).
    by rewrite scan_rules_first_match.
  - intros later s' Hs'.
    rewrite get_colors_for_window_eq, Hs'.
    by rewrite scan_rules_first_match.
Qed.

Lemma first_match_wins_witness :
  get_colors_for_window Ex.browser
    (set_COLOR_RULES [Ex.rule_term; Ex.rule_firefox; Ex.rule_red] initial_world)
  = (Ok (PStr "#ff6600", PNone),
     set_COLOR_RULES [Ex.rule_term; Ex.rule_firefox; Ex.rule_red] initial_world)
  ∧ ∀ (later : list (gmap string pyval)) (s' : World),
      COLOR_RULES s' = [Ex.rule_term; Ex.rule_firefox] ++ later →
      get_colors_for_window Ex.browser s' = (Ok (PStr "#ff6600", PNone), s').
Proof.
  apply (first_match_wins [Ex.rule_term; Ex.rule_firefox; Ex.rule_red]
           Ex.browser _ 1 2 Ex.rule_firefox Ex.rule_red).
  - reflexivity.
  - lia.
  - reflexivity.
  - reflexivity.
  - vm_compute. reflexivity.
  - vm_compute. reflexivity.
  - intros k rk Hk Hrk. destruct k as [|k]; [| lia].
    injection Hrk as <-. vm_compute. reflexivity.
Defined.

(* ===================================================================== *)
(** ** The attribute snapshot and the [shell] member *)
(* ===================================================================== *)

(** The five attributes read through [or ""] are always a [str]. *)
Lemma props_or_empty_are_str (w : Con.t) (n : string) :
  n ∈ ["app_id"; "title"; "class"; "instance"; "role"] →
  ∃ s, props_of w !! n = Some (PStr s).
Proof.
  rewrite !elem_of_cons, elem_of_nil.
  intros [->|[->|[->|[->|[->|[]]]]]]; eexists; reflexivity.
Qed.

(** C5, evaluated where it fails.  The reply for [Ex.no_shell] has no
    [shell] member: the snapshot then holds [None] under [shell], not the
    empty string, and a rule that constrains [shell] makes the matcher
    raise instead of deciding. *)
Theorem shell_absent_is_none_and_raises :
  props_of Ex.no_shell !! "shell" = Some PNone ∧
  rule_matches (props_of Ex.no_shell) Ex.rule_shell
    = Raise "'NoneType' object has no attribute 'lower'" ∧
  get_colors_for_window Ex.no_shell
      (set_COLOR_RULES [Ex.rule_shell] initial_world)
    = (Raise "'NoneType' object has no attribute 'lower'",
       set_COLOR_RULES [Ex.rule_shell] initial_world).
Proof. repeat split; vm_compute; reflexivity. Qed.

(** When the reply does carry a [str] under [shell], or the window has no
    [ipc_data] at all, the whole snapshot consists of strings. *)
Lemma props_all_str_when_shell_is_str (w : Con.t) (n : string) :
  (Con.ipc_data w = None ∨
   ∃ d sh, Con.ipc_data w = Some d ∧ d !! "shell" = Some (PStr sh)) →
  n ∈ PROP_NAMES →
  ∃ s, props_of w !! n = Some (PStr s).
Proof.
  intros Hshell. unfold PROP_NAMES. rewrite !elem_of_cons, elem_of_nil.
  intros [->|[->|[->|[->|[->|[->|[]]]]]]]; try (eexists; reflexivity).
  rewrite props_shell.
  destruct Hshell as [-> | (d & sh & -> & Hsh)]; [by eexists |].
  unfold py_get. rewrite Hsh. by eexists.
Qed.

(* ===================================================================== *)
(** ** Constraints whose value is the empty string *)
(* ===================================================================== *)

(** C10, evaluated where it fails.  A rule whose only constraint is
    [shell] with the empty string does not match the window without a
    [shell] member: evaluating it raises, and so does the decision, while
    the rule without any constraint matches the same window. *)
Theorem empty_shell_constraint_raises :
  rule_matches (props_of Ex.no_shell) Ex.rule_empty_shell
    = Raise "'NoneType' object has no attribute 'lower'" ∧
  rule_matches (props_of Ex.no_shell) Ex.rule_no_constraint = Ok true ∧
  get_colors_for_window Ex.no_shell
      (set_COLOR_RULES [Ex.rule_empty_shell] initial_world)
    = (Raise "'NoneType' object has no attribute 'lower'",
       set_COLOR_RULES [Ex.rule_empty_shell] initial_world) ∧
  get_colors_for_window Ex.no_shell
      (set_COLOR_RULES [Ex.rule_no_constraint] initial_world)
    = (Ok (PStr "red", PNone),
       set_COLOR_RULES [Ex.rule_no_constraint] initial_world).
Proof. repeat split; vm_compute; reflexivity. Qed.

Lemma lower_empty : lower "" = "".
Proof. reflexivity. Qed.

Lemma check_specific_empty_values props rule names is_match :
  Forall (λ n, ∃ s, props !! n = Some (PStr s)) names →
  Forall (λ n, rule !! n = None ∨ rule !! n = Some (PStr "")) names →
  check_specific props rule names is_match = Ok is_match.
Proof.
  intros Hprops. induction Hprops as [|n names [s Hs] _ IH]; [done |].
  intros Hrule. apply Forall_cons in Hrule as [Hn Hrule].
  destruct Hn as [Hn | Hn].
  - simpl. rewrite (has_key_false _ _ Hn). by apply IH.
  - rewrite (check_specific_step _ _ _ _ _ "" s Hn Hs (str_in_empty _)).
    by apply IH.
Qed.

(** What does hold of empty-string constraints: on a window whose
    snapshot consists of strings, a rule all of whose present constraints
    are the empty string matches, like the rule without constraints. *)
Lemma empty_constraints_match_when_shell_is_str (w : Con.t)
    (rule : gmap string pyval) :
  (Con.ipc_data w = None ∨
   ∃ d sh, Con.ipc_data w = Some d ∧ d !! "shell" = Some (PStr sh)) →
  (rule !! "match" = None ∨ rule !! "match" = Some (PStr "")) →
  Forall (λ n, rule !! n = None ∨ rule !! n = Some (PStr "")) PROP_NAMES →
  rule_matches (props_of w) rule = Ok true.
Proof.
  intros Hshell Hmatch Hrule. unfold rule_matches.
  assert (check_generic (props_of w) rule = Ok true) as ->.
  { destruct Hmatch as [H|H].
    - by apply check_generic_absent.
    - rewrite (check_generic_str _ _ _ H). by rewrite lower_empty, str_in_empty. }
  cbn [mbind result_bind].
  apply check_specific_empty_values; [| done].
  apply Forall_forall. intros n Hn.
  by apply props_all_str_when_shell_is_str.
Qed.

(* ===================================================================== *)
(** ** The generic [match] key *)
(* ===================================================================== *)

Lemma key_occurs_bool (key : string) (w : Con.t) :
  str_in (lower key) (lower (or_empty (Con.name w)))
  || str_in (lower key) (lower (or_empty (Con.app_id w)))
  || str_in (lower key) (lower (or_empty (Con.window_class w))) = true
  ↔ key_occurs key w.
Proof.
  unfold key_occurs. rewrite !orb_true_iff, !str_in_spec. tauto.
Qed.

(** C6: for a rule whose [match] member is the string [key], the generic
    check passes exactly when the lowercased key occurs in the lowercased
    title, app_id or class of the window.  If it occurs, a rule with no
    other constraint matches the window; if it occurs in none of the three,
    the generic check fails and the rule is not a match, whatever else it
    constrains. *)
Theorem generic_match_iff (rule : gmap string pyval) (window : Con.t)
    (key : string) :
  rule !! "match" = Some (PStr key) →
  (key_occurs key window →
     check_generic (props_of window) rule = Ok true ∧
     (no_specific_fields rule → rule_matches (props_of window) rule = Ok true))
  ∧
  (¬ key_occurs key window →
     check_generic (props_of window) rule = Ok false ∧
     rule_matches (props_of window) rule ≠ Ok true ∧
     (no_specific_fields rule → rule_matches (props_of window) rule = Ok false)).
Proof.
  intros Hkey.
  pose proof (check_generic_str rule window key Hkey) as Hgen.
  pose proof (key_occurs_bool key window) as Hiff.
  destruct (str_in (lower key) (lower (or_empty (Con.name window)))
            || str_in (lower key) (lower (or_empty (Con.app_id window)))
            || str_in (lower key) (lower (or_empty (Con.window_class window))))
    eqn:Hb.
  - split; [| intros Hno; exfalso; apply Hno; by apply Hiff].
    intros _. split; [done |].
    intros Hnone. unfold rule_matches. rewrite Hgen. cbn [mbind result_bind].
    by apply check_specific_no_keys.
  - split; [intros Hyes; apply Hiff in Hyes; discriminate |].
    intros _. split; [done |]. split.
    + unfold rule_matches. rewrite Hgen. cbn [mbind result_bind].
      apply check_specific_false.
    + intros Hnone. unfold rule_matches. rewrite Hgen. cbn [mbind result_bind].
      by apply check_specific_no_keys.
Qed.

(** The rule [match = "firefox"] and a window titled "Example - Mozilla
    Firefox" whose app_id, "navigator", does not contain the key. *)
Lemma generic_match_iff_witness :
  rule_matches (props_of Ex.browser) Ex.rule_firefox = Ok true ∧
  ¬ occurs_in (lower "firefox") (lower (or_empty (Con.app_id Ex.browser))).
Proof.
  destruct (generic_match_iff Ex.rule_firefox Ex.browser "firefox")
    as [Hyes _]; [reflexivity |].
  split.
  - apply Hyes.
    + left. apply str_in_spec. vm_compute. reflexivity.
    + repeat constructor.
  - rewrite <- str_in_spec. vm_compute. discriminate.
Defined.

(** The key is compared after lowercasing both sides, so the case of the
    title does not matter; and a key that occurs nowhere fails. *)
Example firefox_rule_examples :
  scan_rules (props_of Ex.browser) [Ex.rule_firefox] = Ok (PStr "#ff6600", PNone) ∧
  scan_rules (props_of Ex.xterm) [Ex.rule_firefox] = Ok (PNone, PNone) ∧
  lower "Example - Mozilla Firefox" = "example - mozilla firefox".
Proof. repeat split; vm_compute; reflexivity. Qed.

(* ===================================================================== *)
(** ** [apply_title_format] and the cache *)
(* ===================================================================== *)

Lemma apply_hit ipc w bg text s :
  already_applied (APPLIED_COLORS s) w bg text = true →
  apply_title_format ipc w bg text s = (Ok tt, s).
Proof. intros H. unfold_M. by rewrite H. Qed.

Lemma apply_miss_ok ipc w bg text s :
  already_applied (APPLIED_COLORS s) w bg text = false →
  Connection.command ipc (title_cmd w bg text) = None →
  apply_title_format ipc w bg text s =
  (Ok tt,
   set_APPLIED_COLORS (<[Con.id w := (bg, text)]> (APPLIED_COLORS s))
                      (add_sent (title_cmd w bg text) s)).
Proof. intros Hmiss Hok. unfold_M. rewrite Hmiss. simpl. by rewrite Hok. Qed.

Lemma apply_miss_raise ipc w bg text s e :
  already_applied (APPLIED_COLORS s) w bg text = false →
  Connection.command ipc (title_cmd w bg text) = Some e →
  apply_title_format ipc w bg text s =
  (Raise e, add_sent (title_cmd w bg text) s).
Proof. intros Hmiss Hraise. unfold_M. rewrite Hmiss. simpl. by rewrite Hraise. Qed.

Lemma already_applied_insert cache w bg text :
  already_applied (<[Con.id w := (bg, text)]> cache) w bg text = true.
Proof.
  unfold already_applied. rewrite lookup_insert_eq.
  by rewrite !py_eq_refl.
Qed.

Lemma already_applied_empty w bg text : already_applied ∅ w bg text = false.
Proof. unfold already_applied. by rewrite lookup_empty. Qed.

(** The three ways a call can go, in one statement. *)
Lemma apply_title_format_cases ipc w bg text s :
  apply_title_format ipc w bg text s = (Ok tt, s)
  ∨ apply_title_format ipc w bg text s =
      (Ok tt,
       set_APPLIED_COLORS (<[Con.id w := (bg, text)]> (APPLIED_COLORS s))
                          (add_sent (title_cmd w bg text) s))
  ∨ ∃ e, apply_title_format ipc w bg text s =
           (Raise e, add_sent (title_cmd w bg text) s).
Proof.
  destruct (already_applied (APPLIED_COLORS s) w bg text) eqn:Hhit.
  - left. by apply apply_hit.
  - destruct (Connection.command ipc (title_cmd w bg text)) as [e|] eqn:Hc.
    + right; right. exists e. by apply apply_miss_raise.
    + right; left. by apply apply_miss_ok.
Qed.

Lemma match_and_apply_decided ipc w s d :
  scan_rules (props_of w) (COLOR_RULES s) = Ok d →
  match_and_apply ipc w s = apply_title_format ipc w d.1 d.2 s.
Proof. intros H. unfold match_and_apply, get_colors_for_window. unfold_M. by rewrite H. Qed.

Lemma match_and_apply_raise ipc w s e :
  scan_rules (props_of w) (COLOR_RULES s) = Raise e →
  match_and_apply ipc w s = (Raise e, s).
Proof. intros H. unfold match_and_apply, get_colors_for_window. unfold_M. by rewrite H. Qed.

(** The cache only grows under [match_and_apply]; the rules stay. *)
Lemma match_and_apply_keeps ipc w s k :
  is_Some (APPLIED_COLORS s !! k) →
  is_Some (APPLIED_COLORS (match_and_apply ipc w s).2 !! k).
Proof.
  intros Hk.
  destruct (scan_rules (props_of w) (COLOR_RULES s)) as [d|e] eqn:Hd.
  - rewrite (match_and_apply_decided _ _ _ _ Hd).
    destruct (apply_title_format_cases ipc w d.1 d.2 s)
      as [-> | [-> | [e ->]]]; simpl; try done.
    destruct (decide (Con.id w = k)) as [->|Hne].
    + rewrite lookup_insert_eq. by eexists.
    + by rewrite lookup_insert_ne.
  - by rewrite (match_and_apply_raise _ _ _ _ Hd).
Qed.

Lemma for_each_keeps ipc ws s k :
  is_Some (APPLIED_COLORS s !! k) →
  is_Some (APPLIED_COLORS (for_each ws (match_and_apply ipc) s).2 !! k).
Proof.
  revert s. induction ws as [|w ws IH]; intros s Hk; simpl; [done |].
  unfold mbind, M_bind.
  pose proof (match_and_apply_keeps ipc w s k Hk) as Hstep.
  destruct (match_and_apply ipc w s) as [[[]|e] s1]; simpl in *.
  - by apply IH.
  - done.
Qed.

Lemma on_window_event_keeps ipc w : keeps_cache_entries (on_window_event ipc w).
Proof.
  intros s k Hk. unfold on_window_event, try_except.
  pose proof (match_and_apply_keeps ipc w s k Hk) as Hstep.
  destruct (match_and_apply ipc w s) as [[[]|e] s1]; simpl in *; done.
Qed.

Lemma apply_to_all_windows_keeps ipc : keeps_cache_entries (apply_to_all_windows ipc).
Proof.
  intros s k Hk. unfold apply_to_all_windows, lift, mbind, M_bind.
  destruct (Connection.get_tree ipc) as [leaves|e]; simpl; [| done].
  by apply for_each_keeps.
Qed.

(* ===================================================================== *)
(** ** [load_config] *)
(* ===================================================================== *)

Lemma report_eq msg s :
  report msg s =
  (Ok tt,
   if negb (String.eqb msg (LAST_ERROR s))
   then set_LAST_ERROR msg (add_stderr msg s)
   else s).
Proof. unfold_M. by destruct (negb (String.eqb msg (LAST_ERROR s))). Qed.

Lemma report_fields msg s :
  let s' := (report msg s).2 in
  COLOR_RULES s' = COLOR_RULES s ∧ LAST_MTIME s' = LAST_MTIME s ∧
  APPLIED_COLORS s' = APPLIED_COLORS s ∧ sent s' = sent s ∧
  LAST_ERROR s' = msg.
Proof.
  rewrite report_eq. simpl.
  destruct (String.eqb_spec msg (LAST_ERROR s)); simpl; by repeat split.
Qed.

(** Every path through [load_config].  The last one is that of a value
    without a length: lines 31-34 have made their assignments when [len]
    raises at line 35, and line 39 is not reached. *)
Lemma load_config_eq CONFIG_FILE file s :
  load_config CONFIG_FILE file s =
  if negb (ConfigFile.exists_ file)
  then (Ok false, (report (not_found_msg CONFIG_FILE) s).2)
  else
    match ConfigFile.getmtime file with
    | Raise e => (Ok false, (report (load_error_msg e) s).2)
    | Ok mtime =>
        if (mtime <=? LAST_MTIME s)%Z then (Ok false, s)
        else
          match ConfigFile.json_load file with
          | Raise e => (Ok false, (report (load_error_msg e) s).2)
          | Ok rules =>
              match py_len rules with
              | Ok n =>
                  (Ok true,
                   mkWorld rules mtime "" ∅ (sent s)
                     (stdout s ++ ["Loaded " +:+ pretty n
                                   +:+ " rules from " +:+ CONFIG_FILE])
                     (stderr s))
              | Raise e =>
                  (Ok false,
                   (report (load_error_msg e)
                      (mkWorld rules mtime "" (APPLIED_COLORS s) (sent s)
                               (stdout s) (stderr s))).2)
              end
          end
    end.
Proof.
  unfold load_config, try_except, mbind, mret, M_bind, M_ret, lift, gets, modify.
  unfold not_found_msg, load_error_msg.
  destruct (ConfigFile.exists_ file); simpl.
  2:{ by rewrite report_eq. }
  destruct (ConfigFile.getmtime file) as [mtime|e]; simpl.
  2:{ by rewrite report_eq. }
  destruct (mtime <=? LAST_MTIME s)%Z; simpl; [done |].
  destruct (ConfigFile.json_load file) as [rules|e]; simpl.
  2:{ by rewrite report_eq. }
  destruct (py_len rules) as [n|e]; simpl; done.
Qed.

(** A successful load: the file exists, is newer, parses, and what it
    holds has a length. *)
Lemma load_config_true CONFIG_FILE file s s1 :
  load_config CONFIG_FILE file s = (Ok true, s1) →
  ∃ mtime rules n,
    ConfigFile.getmtime file = Ok mtime ∧
    ConfigFile.json_load file = Ok rules ∧
    (LAST_MTIME s < mtime)%Z ∧
    py_len rules = Ok n ∧
    s1 = mkWorld rules mtime "" ∅ (sent s)
           (stdout s ++ ["Loaded " +:+ pretty n
                         +:+ " rules from " +:+ CONFIG_FILE])
           (stderr s).
Proof.
  rewrite load_config_eq.
  destruct (ConfigFile.exists_ file); cbn [negb]; [| discriminate].
  destruct (ConfigFile.getmtime file) as [mtime|e]; [| discriminate].
  destruct (Z.leb_spec mtime (LAST_MTIME s)); [discriminate |].
  destruct (ConfigFile.json_load file) as [rules|e]; [| discriminate].
  destruct (py_len rules) as [n|e] eqn:Hlen; [| discriminate].
  intros [= <-]. by exists mtime, rules, n.
Qed.

(** Any other outcome is [False], and leaves the cache and the commands
    sent as they were. *)
Lemma load_config_not_true CONFIG_FILE file s :
  (load_config CONFIG_FILE file s).1 ≠ Ok true →
  let s' := (load_config CONFIG_FILE file s).2 in
  (load_config CONFIG_FILE file s).1 = Ok false ∧
  APPLIED_COLORS s' = APPLIED_COLORS s ∧ sent s' = sent s.
Proof.
  rewrite load_config_eq.
  destruct (ConfigFile.exists_ file); cbn [negb].
  2:{ intros _. cbn [fst snd]. split; [done |]. split; apply report_fields. }
  destruct (ConfigFile.getmtime file) as [mtime|e].
  2:{ intros _. cbn [fst snd]. split; [done |]. split; apply report_fields. }
  destruct (mtime <=? LAST_MTIME s)%Z; [done |].
  destruct (ConfigFile.json_load file) as [rules|e].
  2:{ intros _. cbn [fst snd]. split; [done |]. split; apply report_fields. }
  destruct (py_len rules) as [n|e]; [done |].
  intros _. cbn [fst snd]. split; [done |].
  split; [apply (report_fields _ (mkWorld _ _ _ _ _ _ _))
         | apply (report_fields _ (mkWorld _ _ _ _ _ _ _))].
Qed.

(** X21: when the file exists and is newer than the last load but reading
    or parsing it raises, [load_config] returns [False], records the error
    message in [LAST_ERROR], and leaves the rule list, the time stamp and
    the cache as they were; the decision for every window is the one it
    was before the call. *)
Theorem malformed_config_keeps_rules (CONFIG_FILE : string)
    (file : ConfigFile.t) (s : World) (mtime : Z) (e : string) :
  ConfigFile.exists_ file = true →
  ConfigFile.getmtime file = Ok mtime →
  (LAST_MTIME s < mtime)%Z →
  ConfigFile.json_load file = Raise e →
  let s' := (load_config CONFIG_FILE file s).2 in
  load_config CONFIG_FILE file s = (Ok false, s') ∧
  LAST_ERROR s' = "Error loading config: " +:+ e ∧
  COLOR_RULES s' = COLOR_RULES s ∧
  LAST_MTIME s' = LAST_MTIME s ∧
  APPLIED_COLORS s' = APPLIED_COLORS s ∧
  ∀ window : Con.t,
    (get_colors_for_window window s').1 = (get_colors_for_window window s).1.
Proof.
  intros Hex Hmt Hlt Hload.
  assert (load_config CONFIG_FILE file s =
          (Ok false, (report ("Error loading config: " +:+ e) s).2)) as Heq.
  { unfold load_config, try_except, mbind, mret, M_bind, M_ret, lift, gets, modify.
    rewrite Hex, Hmt. simpl.
    destruct (Z.leb_spec mtime (LAST_MTIME s)); [lia |].
    rewrite Hload. simpl. by rewrite report_eq. }
  rewrite Heq. cbn [snd].
  destruct (report_fields ("Error loading config: " +:+ e) s)
    as (Hrules & Hmtime & Hcache & _ & Herr).
  repeat split; try done.
  intros window. rewrite !get_colors_for_window_eq. simpl. by rewrite Hrules.
Qed.

Lemma malformed_config_keeps_rules_witness :
  let s' := (load_config "tab_colors.json" Ex.file_malformed Ex.world_applied).2 in
  load_config "tab_colors.json" Ex.file_malformed Ex.world_applied = (Ok false, s') ∧
  LAST_ERROR s' =
    "Error loading config: " +:+ "Expecting value: line 1 column 1 (char 0)" ∧
  COLOR_RULES s' = COLOR_RULES Ex.world_applied ∧
  LAST_MTIME s' = LAST_MTIME Ex.world_applied ∧
  APPLIED_COLORS s' = APPLIED_COLORS Ex.world_applied ∧
  ∀ window : Con.t,
    (get_colors_for_window window s').1 =
    (get_colors_for_window window Ex.world_applied).1.
Proof.
  apply (malformed_config_keeps_rules "tab_colors.json" Ex.file_malformed
           Ex.world_applied 200).
  - reflexivity.
  - reflexivity.
  - simpl. lia.
  - reflexivity.
Defined.

(** A file that parses to a value without a length: the load fails, but
    only after the value has replaced the rules. *)
Lemma load_config_unsized CONFIG_FILE file s mtime loaded e :
  ConfigFile.exists_ file = true →
  ConfigFile.getmtime file = Ok mtime →
  (LAST_MTIME s < mtime)%Z →
  ConfigFile.json_load file = Ok loaded →
  py_len loaded = Raise e →
  let s' := (load_config CONFIG_FILE file s).2 in
  load_config CONFIG_FILE file s = (Ok false, s') ∧
  COLOR_RULES s' = loaded ∧
  LAST_MTIME s' = mtime ∧
  LAST_ERROR s' = "Error loading config: " +:+ e ∧
  APPLIED_COLORS s' = APPLIED_COLORS s.
Proof.
  intros Hex Hmt Hlt Hjson Hlen.
  rewrite load_config_eq, Hex, Hmt, Hjson, Hlen. cbn [negb].
  destruct (Z.leb_spec mtime (LAST_MTIME s)); [lia |]. cbn [snd].
  destruct (report_fields (load_error_msg e)
              (mkWorld loaded mtime "" (APPLIED_COLORS s) (sent s)
                       (stdout s) (stderr s))) as (Hr & Hm & Hc & _ & He).
  by repeat split.
Qed.

(** C4, evaluated where it fails.  The file holds the JSON number 5: it
    parses, lines 31-34 install it, and [len] raises at line 35.  The call
    records the error and returns [False], yet the rules loaded before are
    gone: [COLOR_RULES] is 5, the time stamp has advanced so that the next
    poll will not read the file again, the cache still holds what the old
    rules gave, and the matcher, which decided for the window before the
    call, raises after it. *)
Theorem failed_load_replaces_rules :
  let s' := (load_config "tab_colors.json" Ex.file_number Ex.world_applied).2 in
  load_config "tab_colors.json" Ex.file_number Ex.world_applied = (Ok false, s') ∧
  LAST_ERROR s' = "Error loading config: object of type 'int' has no len()" ∧
  COLOR_RULES Ex.world_applied = [Ex.rule_firefox] ∧
  COLOR_RULES s' = Scalar (PInt 5) ∧
  LAST_MTIME s' = 200%Z ∧
  APPLIED_COLORS s' = APPLIED_COLORS Ex.world_applied ∧
  (get_colors_for_window Ex.browser Ex.world_applied).1
    = Ok (PStr "#ff6600", PNone) ∧
  (get_colors_for_window Ex.browser s').1 = Raise "'int' object is not iterable" ∧
  load_config "tab_colors.json" Ex.file_number s' = (Ok false, s').
Proof. repeat split; vm_compute; reflexivity. Qed.

(* ===================================================================== *)
(** ** Idempotence, reload and failed commands *)
(* ===================================================================== *)

(** A call that found the decision not yet recorded and returned has sent
    one command and recorded the decision; the same call again, over any
    connection, changes nothing. *)
Lemma match_and_apply_then_noop ipc ipc' w s s1 d :
  scan_rules (props_of w) (COLOR_RULES s) = Ok d →
  already_applied (APPLIED_COLORS s) w d.1 d.2 = false →
  match_and_apply ipc w s = (Ok tt, s1) →
  sent s1 = sent s ++ [title_cmd w d.1 d.2] ∧
  APPLIED_COLORS s1 !! Con.id w = Some d ∧
  COLOR_RULES s1 = COLOR_RULES s ∧
  match_and_apply ipc' w s1 = (Ok tt, s1).
Proof.
  intros Hd Hmiss Hrun.
  rewrite (match_and_apply_decided _ _ _ _ Hd) in Hrun.
  destruct (Connection.command ipc (title_cmd w d.1 d.2)) as [e|] eqn:Hc.
  { rewrite (apply_miss_raise _ _ _ _ _ e Hmiss Hc) in Hrun. discriminate. }
  rewrite (apply_miss_ok _ _ _ _ _ Hmiss Hc) in Hrun.
  injection Hrun as <-. simpl.
  repeat split.
  - rewrite lookup_insert_eq. by destruct d.
  - rewrite (match_and_apply_decided _ _ _ d) by exact Hd.
    apply apply_hit. simpl. apply already_applied_insert.
Qed.

(** C3: take a window whose decision under the current rules is not yet
    recorded as applied, and call apply twice with nothing changed in
    between.  If the first call returns, it has sent exactly one command
    and recorded the decision for the window id; the second call finds the
    recorded decision equal to the one it computes and is a no-op: it
    returns in the same state, so the two calls together have sent exactly
    one command. *)
Theorem apply_twice_issues_one_command (ipc ipc' : Connection.t)
    (window : Con.t) (s s1 : World) (d : pyval * pyval) :
  scan_rules (props_of window) (COLOR_RULES s) = Ok d →
  already_applied (APPLIED_COLORS s) window d.1 d.2 = false →
  match_and_apply ipc window s = (Ok tt, s1) →
  sent s1 = sent s ++ [title_cmd window d.1 d.2] ∧
  APPLIED_COLORS s1 !! Con.id window = Some d ∧
  scan_rules (props_of window) (COLOR_RULES s1) = Ok d ∧
  match_and_apply ipc' window s1 = (Ok tt, s1) ∧
  sent (match_and_apply ipc' window s1).2 = sent s ++ [title_cmd window d.1 d.2].
Proof.
  intros Hd Hmiss Hrun.
  destruct (match_and_apply_then_noop ipc ipc' window s s1 d Hd Hmiss Hrun)
    as (Hsent & Hcache & Hrules & Hnoop).
  repeat split; try done.
  - by rewrite Hrules.
  - by rewrite Hnoop.
Qed.

Lemma apply_twice_issues_one_command_witness :
  let s1 := (match_and_apply Ex.ipc_ok Ex.browser Ex.world_loaded).2 in
  sent s1 = [title_cmd Ex.browser (PStr "#ff6600") PNone] ∧
  APPLIED_COLORS s1 !! 7%Z = Some (PStr "#ff6600", PNone) ∧
  scan_rules (props_of Ex.browser) (COLOR_RULES s1) = Ok (PStr "#ff6600", PNone) ∧
  match_and_apply Ex.ipc_broken Ex.browser s1 = (Ok tt, s1) ∧
  sent (match_and_apply Ex.ipc_broken Ex.browser s1).2 =
    [title_cmd Ex.browser (PStr "#ff6600") PNone].
Proof.
  apply (apply_twice_issues_one_command Ex.ipc_ok Ex.ipc_broken Ex.browser
           Ex.world_loaded _ (PStr "#ff6600", PNone)).
  - vm_compute. reflexivity.
  - vm_compute. reflexivity.
  - vm_compute. reflexivity.
Defined.

(** C2: [load_config] empties the cache when, and only when, it returns
    [True]: a call that returns anything else leaves the cache as it was,
    and neither the handling of an event nor a sweep over all windows ever
    drops an entry.  Consequently, right after a successful reload, whatever
    had been recorded for a window before (in particular the very decision
    the new rules give it), applying to that window sends exactly one
    command, and applying once more sends none. *)
Theorem reload_clears_cache_once (CONFIG_FILE : string) (file : ConfigFile.t)
    (ipc ipc' : Connection.t) (window : Con.t) (s s1 : World)
    (d : pyval * pyval) :
  load_config CONFIG_FILE file s = (Ok true, s1) →
  scan_rules (props_of window) (COLOR_RULES s1) = Ok d →
  Connection.command ipc (title_cmd window d.1 d.2) = None →
  APPLIED_COLORS s1 = ∅ ∧
  sent s1 = sent s ∧
  (let s2 := (match_and_apply ipc window s1).2 in
   match_and_apply ipc window s1 = (Ok tt, s2) ∧
   sent s2 = sent s1 ++ [title_cmd window d.1 d.2] ∧
   match_and_apply ipc' window s2 = (Ok tt, s2)) ∧
  (∀ (file' : ConfigFile.t) (s0 : World),
     (load_config CONFIG_FILE file' s0).1 ≠ Ok true →
     APPLIED_COLORS (load_config CONFIG_FILE file' s0).2 = APPLIED_COLORS s0) ∧
  (∀ (c : Connection.t) (v : Con.t), keeps_cache_entries (on_window_event c v)) ∧
  (∀ c : Connection.t, keeps_cache_entries (apply_to_all_windows c)).
Proof.
  intros Hload Hd Hc.
  destruct (load_config_true _ _ _ _ Hload)
    as (mtime & rules & n & _ & _ & _ & _ & Hs1).
  assert (APPLIED_COLORS s1 = ∅) as Hempty by (by rewrite Hs1).
  assert (already_applied (APPLIED_COLORS s1) window d.1 d.2 = false) as Hmiss.
  { rewrite Hempty. apply already_applied_empty. }
  assert (match_and_apply ipc window s1 =
          (Ok tt, (match_and_apply ipc window s1).2)) as Hrun.
  { rewrite (match_and_apply_decided _ _ _ _ Hd).
    by rewrite (apply_miss_ok _ _ _ _ _ Hmiss Hc). }
  destruct (match_and_apply_then_noop ipc ipc' window s1 _ d Hd Hmiss Hrun)
    as (Hsent & _ & _ & Hnoop).
  repeat split; try done.
  - by rewrite Hs1.
  - intros file' s0 Hnot.
    by destruct (load_config_not_true CONFIG_FILE file' s0 Hnot) as (_ & ? & _).
  - intros c v. apply on_window_event_keeps.
  - intros c. apply apply_to_all_windows_keeps.
Qed.

(** The rules are written again unchanged while the cache holds, for the
    browser window, exactly the decision the rules give it. *)
Lemma reload_clears_cache_once_witness :
  let s1 := (load_config "tab_colors.json" Ex.file_rewritten Ex.world_applied).2 in
  APPLIED_COLORS Ex.world_applied !! 7%Z = Some (PStr "#ff6600", PNone) ∧
  COLOR_RULES s1 = COLOR_RULES Ex.world_applied ∧
  APPLIED_COLORS s1 = ∅ ∧
  (let s2 := (match_and_apply Ex.ipc_ok Ex.browser s1).2 in
   match_and_apply Ex.ipc_ok Ex.browser s1 = (Ok tt, s2) ∧
   sent s2 = sent s1 ++ [title_cmd Ex.browser (PStr "#ff6600") PNone] ∧
   match_and_apply Ex.ipc_ok Ex.browser s2 = (Ok tt, s2)).
Proof.
  intros s1.
  destruct (reload_clears_cache_once "tab_colors.json" Ex.file_rewritten
              Ex.ipc_ok Ex.ipc_ok Ex.browser Ex.world_applied s1
              (PStr "#ff6600", PNone))
    as (Hempty & _ & Happly & _).
  - vm_compute. reflexivity.
  - vm_compute. reflexivity.
  - reflexivity.
  - repeat split; try done; apply Happly.
Defined.

(** C7: the cache is written after [ipc.command] has returned, never
    before.  If the command for a window raises, [apply_title_format]
    raises with the cache untouched; [on_window_event] swallows the
    exception and leaves the cache as it was, so the next event for the
    same window, over whatever connection, sends the command again.  And in
    general a call that changed the cache has returned normally and has
    sent the command. *)
Theorem failed_command_not_cached (ipc ipc' : Connection.t) (window : Con.t)
    (s : World) (d : pyval * pyval) (e : string) :
  scan_rules (props_of window) (COLOR_RULES s) = Ok d →
  already_applied (APPLIED_COLORS s) window d.1 d.2 = false →
  Connection.command ipc (title_cmd window d.1 d.2) = Some e →
  apply_title_format ipc window d.1 d.2 s =
    (Raise e, add_sent (title_cmd window d.1 d.2) s) ∧
  (let s1 := (on_window_event ipc window s).2 in
   on_window_event ipc window s = (Ok tt, s1) ∧
   APPLIED_COLORS s1 = APPLIED_COLORS s ∧
   sent s1 = sent s ++ [title_cmd window d.1 d.2] ∧
   stderr s1 = stderr s ++ ["Error: " +:+ e] ∧
   sent (on_window_event ipc' window s1).2 =
     sent s1 ++ [title_cmd window d.1 d.2]) ∧
  (∀ (c : Connection.t) (v : Con.t) (bg text : pyval) (s0 : World),
     APPLIED_COLORS (apply_title_format c v bg text s0).2 ≠ APPLIED_COLORS s0 →
     (apply_title_format c v bg text s0).1 = Ok tt ∧
     sent (apply_title_format c v bg text s0).2 =
       sent s0 ++ [title_cmd v bg text]).
Proof.
  intros Hd Hmiss Hc.
  pose proof (apply_miss_raise _ _ _ _ _ e Hmiss Hc) as Hraise.
  split; [exact Hraise |]. split.
  - assert (on_window_event ipc window s =
            (Ok tt, add_stderr ("Error: " +:+ e)
                      (add_sent (title_cmd window d.1 d.2) s))) as Hev.
    { unfold on_window_event, try_except.
      by rewrite (match_and_apply_decided _ _ _ _ Hd), Hraise. }
    rewrite Hev. cbn [snd]. repeat split.
    set (s1 := add_stderr _ _).
    assert (scan_rules (props_of window) (COLOR_RULES s1) = Ok d) as Hd1
      by exact Hd.
    assert (already_applied (APPLIED_COLORS s1) window d.1 d.2 = false) as Hmiss1
      by exact Hmiss.
    unfold on_window_event, try_except.
    rewrite (match_and_apply_decided _ _ _ d Hd1).
    destruct (Connection.command ipc' (title_cmd window d.1 d.2)) as [e'|] eqn:Hc'.
    + by rewrite (apply_miss_raise _ _ _ _ _ e' Hmiss1 Hc').
    + by rewrite (apply_miss_ok _ _ _ _ _ Hmiss1 Hc').
  - intros c v bg text s0 Hchanged.
    destruct (apply_title_format_cases c v bg text s0)
      as [Heq | [Heq | [e' Heq]]]; rewrite Heq in *; simpl in *; done.
Qed.

Lemma failed_command_not_cached_witness :
  let cmd := title_cmd Ex.browser (PStr "#ff6600") PNone in
  let s1 := (on_window_event Ex.ipc_broken Ex.browser Ex.world_loaded).2 in
  apply_title_format Ex.ipc_broken Ex.browser (PStr "#ff6600") PNone Ex.world_loaded
    = (Raise "[Errno 32] Broken pipe", add_sent cmd Ex.world_loaded) ∧
  on_window_event Ex.ipc_broken Ex.browser Ex.world_loaded = (Ok tt, s1) ∧
  APPLIED_COLORS s1 = ∅ ∧
  sent s1 = [cmd] ∧
  sent (on_window_event Ex.ipc_ok Ex.browser s1).2 = [cmd; cmd].
Proof.
  intros cmd s1.
  destruct (failed_command_not_cached Ex.ipc_broken Ex.ipc_ok Ex.browser
              Ex.world_loaded (PStr "#ff6600", PNone) "[Errno 32] Broken pipe")
    as (Hraise & Hevent & _).
  - vm_compute. reflexivity.
  - vm_compute. reflexivity.
  - reflexivity.
  - destruct Hevent as (Hev & Hcache & Hsent & _ & Hagain).
    repeat split; done.
Defined.

(* ===================================================================== *)
(** ** The title format *)
(* ===================================================================== *)

Lemma suffix_of_cases (w : Con.t) :
  suffix_of w = "" ∨ suffix_of w = " [XWayland]".
Proof. unfold suffix_of. destruct (py_eq _ _); auto. Qed.

Lemma suffix_of_xwayland (w : Con.t) (d : gmap string pyval) :
  Con.ipc_data w = Some d →
  d !! "shell" = Some (PStr "xwayland") →
  suffix_of w = " [XWayland]".
Proof. intros Hd Hsh. unfold suffix_of, py_get. by rewrite Hd, Hsh. Qed.

Lemma title_fmt_bare (w : Con.t) (bg text : pyval) :
  truthy bg || truthy text = false →
  title_fmt w bg text = "%title" +:+ suffix_of w.
Proof. intros H. unfold title_fmt. by rewrite H. Qed.

Lemma title_fmt_span (w : Con.t) (bg text : pyval) :
  truthy bg || truthy text = true →
  ∃ attrs, title_fmt w bg text =
           "<span" +:+ attrs +:+ "> %title" +:+ suffix_of w +:+ " </span>".
Proof. intros H. unfold title_fmt. rewrite H. by eexists. Qed.

Lemma occurs_in_cons (key s : string) (c : Ascii.ascii) :
  occurs_in key s → occurs_in key (String c s).
Proof. intros H. by apply (occurs_in_append_l key s (String c "")). Qed.

Lemma occurs_in_self_append (key post : string) : occurs_in key (key +:+ post).
Proof. by exists "", post. Qed.

(** A substring free of double quotes survives the escaping and the
    wrapping into the command. *)
Lemma occurs_in_title_cmd (key : string) (w : Con.t) (bg text : pyval) :
  escape_dquotes key = key →
  occurs_in key (title_fmt w bg text) →
  occurs_in key (title_cmd w bg text).
Proof.
  intros Hkey (pre & post & Hfmt). unfold title_cmd. rewrite Hfmt.
  do 3 apply occurs_in_append_l. apply occurs_in_cons.
  rewrite !escape_dquotes_append, Hkey, !append_assoc.
  apply occurs_in_append_l, occurs_in_self_append.
Qed.

(** C8: a window that no rule matches gets the decision [(None, None)],
    and for that decision, which is also the one of a matching rule that
    has neither colour, the format is the bare title placeholder followed
    by the shell suffix: no [span] wrapper, no [background] or [foreground]
    attribute, and nothing for the escaping to change. *)
Theorem no_match_bare_template (window : Con.t)
    (rules : list (gmap string pyval)) (s : World) :
  COLOR_RULES s = rules →
  Forall (λ r, rule_matches (props_of window) r = Ok false) rules →
  get_colors_for_window window s = (Ok (PNone, PNone), s) ∧
  (∀ rule : gmap string pyval,
     rule !! "bg_color" = None → rule !! "text_color" = None →
     rule_colors rule = (PNone, PNone)) ∧
  title_fmt window PNone PNone = "%title" +:+ suffix_of window ∧
  (suffix_of window = "" ∨ suffix_of window = " [XWayland]") ∧
  str_in "<span" (title_fmt window PNone PNone) = false ∧
  str_in "background=" (title_fmt window PNone PNone) = false ∧
  str_in "foreground=" (title_fmt window PNone PNone) = false ∧
  title_cmd window PNone PNone =
    "[con_id=" +:+ pretty (Con.id window) +:+ "] title_format "
      +:+ String dquote ("%title" +:+ suffix_of window +:+ String dquote "").
Proof.
  intros Hs Hnone.
  split.
  { rewrite get_colors_for_window_eq, Hs. by rewrite scan_rules_no_match. }
  split.
  { intros rule Hbg Htext. unfold rule_colors, py_get. by rewrite Hbg, Htext. }
  unfold title_cmd. rewrite (title_fmt_bare window PNone PNone eq_refl).
  split; [done |]. split; [apply suffix_of_cases |].
  destruct (suffix_of_cases window) as [-> | ->]; by repeat split.
Qed.

Lemma no_match_bare_template_witness :
  get_colors_for_window Ex.xterm Ex.world_loaded = (Ok (PNone, PNone), Ex.world_loaded) ∧
  title_fmt Ex.xterm PNone PNone = "%title [XWayland]" ∧
  title_fmt Ex.browser PNone PNone = "%title".
Proof.
  destruct (no_match_bare_template Ex.xterm [Ex.rule_firefox] Ex.world_loaded)
    as (Hdecision & _).
  - reflexivity.
  - repeat constructor.
  - split; [exact Hdecision |]. split; reflexivity.
Defined.

(** C9: for a window whose reply says [shell = "xwayland"], the suffix is
    " [XWayland]" and it follows the title placeholder in the format
    whatever the colours are, in the bare form as in the [span] form;
    the command sent for the window contains it unchanged. *)
Theorem xwayland_suffix_in_both_forms (window : Con.t)
    (d : gmap string pyval) (bg text : pyval) :
  Con.ipc_data window = Some d →
  d !! "shell" = Some (PStr "xwayland") →
  suffix_of window = " [XWayland]" ∧
  (truthy bg || truthy text = false →
     title_fmt window bg text = "%title [XWayland]") ∧
  (truthy bg || truthy text = true →
     ∃ attrs, title_fmt window bg text =
              "<span" +:+ attrs +:+ "> %title [XWayland] </span>") ∧
  occurs_in "%title [XWayland]" (title_fmt window bg text) ∧
  occurs_in "%title [XWayland]" (title_cmd window bg text).
Proof.
  intros Hd Hsh.
  pose proof (suffix_of_xwayland window d Hd Hsh) as Hsuffix.
  assert (occurs_in "%title [XWayland]" (title_fmt window bg text)) as Hocc.
  { destruct (truthy bg || truthy text) eqn:Hcol.
    - destruct (title_fmt_span window bg text Hcol) as [attrs ->].
      rewrite Hsuffix. exists ("<span" +:+ attrs +:+ "> "), " </span>".
      by rewrite !append_assoc.
    - rewrite (title_fmt_bare window bg text Hcol), Hsuffix.
      by exists "", "". }
  split; [done |]. split; [| split; [| split]].
  - intros Hcol. by rewrite (title_fmt_bare window bg text Hcol), Hsuffix.
  - intros Hcol. destruct (title_fmt_span window bg text Hcol) as [attrs ->].
    rewrite Hsuffix. by exists attrs.
  - exact Hocc.
  - by apply occurs_in_title_cmd.
Qed.

Lemma xwayland_suffix_in_both_forms_witness :
  title_fmt Ex.xterm PNone PNone = "%title [XWayland]" ∧
  title_fmt Ex.xterm (PStr "red") PNone =
    "<span background='red'> %title [XWayland] </span>" ∧
  occurs_in "%title [XWayland]" (title_cmd Ex.xterm (PStr "red") (PStr "white")).
Proof.
  split; [| split].
  - by apply (xwayland_suffix_in_both_forms Ex.xterm
                {["shell" := PStr "xwayland"]} PNone PNone).
  - reflexivity.
  - by apply (xwayland_suffix_in_both_forms Ex.xterm
                {["shell" := PStr "xwayland"]} (PStr "red") (PStr "white")).
Defined.

(* ===================================================================== *)
(** * Further properties of the code *)
(* ===================================================================== *)

(** ** [load_config]: every path *)

Lemma report_twice msg s :
  (report msg (report msg s).2).2 = (report msg s).2.
Proof.
  rewrite (report_eq msg (report msg s).2).
  destruct (report_fields msg s) as (_ & _ & _ & _ & Herr).
  cbn [snd]. rewrite Herr. by rewrite String.eqb_refl.
Qed.

Lemma report_stderr msg s :
  stderr (report msg s).2 =
  if String.eqb msg (LAST_ERROR s) then stderr s else stderr s ++ [msg].
Proof. rewrite report_eq. simpl. by destruct (String.eqb msg (LAST_ERROR s)). Qed.

Lemma report_stdout msg s : stdout (report msg s).2 = stdout s.
Proof. rewrite report_eq. simpl. by destruct (String.eqb msg (LAST_ERROR s)). Qed.

Lemma load_config_sent CONFIG_FILE file s :
  sent (load_config CONFIG_FILE file s).2 = sent s.
Proof.
  rewrite load_config_eq.
  destruct (ConfigFile.exists_ file); simpl; [| apply report_fields].
  destruct (ConfigFile.getmtime file) as [mtime|e]; simpl; [| apply report_fields].
  destruct (mtime <=? LAST_MTIME s)%Z; simpl; [done |].
  destruct (ConfigFile.json_load file) as [rules|e]; simpl;
    [| apply report_fields].
  by destruct (py_len rules) as [n|e].
Qed.

(** X1: [load_config] never raises, whatever the file system answers, and
    never talks to the window manager. *)
Theorem load_config_never_raises (CONFIG_FILE : string) (file : ConfigFile.t)
    (s : World) :
  (∃ changed : bool, (load_config CONFIG_FILE file s).1 = Ok changed) ∧
  sent (load_config CONFIG_FILE file s).2 = sent s.
Proof.
  rewrite load_config_eq.
  destruct (ConfigFile.exists_ file); simpl.
  2:{ split; [by eexists |]. apply report_fields. }
  destruct (ConfigFile.getmtime file) as [mtime|e]; simpl.
  2:{ split; [by eexists |]. apply report_fields. }
  destruct (mtime <=? LAST_MTIME s)%Z; simpl; [split; [by eexists | done] |].
  destruct (ConfigFile.json_load file) as [rules|e]; simpl.
  - destruct (py_len rules) as [n|e]; simpl; split; by eexists.
  - split; [by eexists |]. apply report_fields.
Qed.

(** X2: when the file does not exist, [load_config] returns [False],
    keeps the rules, the time stamp and the cache, and remembers the
    "not found" message; the message goes to stderr only if it is not the
    one remembered already. *)
Theorem load_config_missing_file (CONFIG_FILE : string) (file : ConfigFile.t)
    (s : World) :
  ConfigFile.exists_ file = false →
  let s' := (load_config CONFIG_FILE file s).2 in
  load_config CONFIG_FILE file s = (Ok false, s') ∧
  COLOR_RULES s' = COLOR_RULES s ∧
  LAST_MTIME s' = LAST_MTIME s ∧
  APPLIED_COLORS s' = APPLIED_COLORS s ∧
  LAST_ERROR s' = "Config file not found: " +:+ CONFIG_FILE ∧
  stderr s' =
    (if String.eqb ("Config file not found: " +:+ CONFIG_FILE) (LAST_ERROR s)
     then stderr s
     else stderr s ++ ["Config file not found: " +:+ CONFIG_FILE]).
Proof.
  intros Hex. rewrite load_config_eq, Hex. cbn [negb snd].
  destruct (report_fields (not_found_msg CONFIG_FILE) s)
    as (Hr & Hm & Hc & _ & He).
  repeat split; try done.
  apply report_stderr.
Qed.

Lemma load_config_missing_file_witness :
  let s' := (load_config "tab_colors.json"
               (ConfigFile.mk false (Raise "gone") (Raise "gone"))
               Ex.world_applied).2 in
  COLOR_RULES s' = [Ex.rule_firefox] ∧
  LAST_ERROR s' = "Config file not found: tab_colors.json" ∧
  stderr s' = ["Config file not found: tab_colors.json"].
Proof.
  intros s'.
  destruct (load_config_missing_file "tab_colors.json"
              (ConfigFile.mk false (Raise "gone") (Raise "gone"))
              Ex.world_applied)
    as (_ & Hr & _ & _ & He & Hs).
  - reflexivity.
  - split; [exact Hr | split; [exact He | exact Hs]].
Defined.

(** X3: polling a file that does not give a new rule list is idempotent.
    If a call of [load_config] does not return [True], calling it again
    with the same answers from the file system returns [False] and leaves
    every global, and the output, exactly as the first call left them: an
    error that persists is printed once. *)
Theorem load_config_failure_idempotent (CONFIG_FILE : string)
    (file : ConfigFile.t) (s : World) :
  (load_config CONFIG_FILE file s).1 ≠ Ok true →
  let s' := (load_config CONFIG_FILE file s).2 in
  load_config CONFIG_FILE file s' = (Ok false, s').
Proof.
  intros Hnot s'. subst s'. revert Hnot.
  rewrite (load_config_eq CONFIG_FILE file s).
  destruct (ConfigFile.exists_ file) eqn:Hex; cbn [negb].
  2:{ intros _. cbn [snd]. rewrite load_config_eq, Hex. cbn [negb snd].
      by rewrite report_twice. }
  destruct (ConfigFile.getmtime file) as [mtime|e] eqn:Hmt.
  2:{ intros _. cbn [snd]. rewrite load_config_eq, Hex, Hmt. cbn [negb snd].
      by rewrite report_twice. }
  destruct (mtime <=? LAST_MTIME s)%Z eqn:Hle.
  { intros _. cbn [snd]. rewrite load_config_eq, Hex, Hmt. cbn [negb].
    by rewrite Hle. }
  destruct (ConfigFile.json_load file) as [rules|e] eqn:Hjson.
  2:{ intros _. cbn [snd]. rewrite load_config_eq, Hex, Hmt, Hjson. cbn [negb].
      destruct (report_fields (load_error_msg e) s) as (_ & Hm & _).
      rewrite Hm, Hle. cbn [snd]. by rewrite report_twice. }
  destruct (py_len rules) as [n|e] eqn:Hlen.
  { intros Hnot. by destruct Hnot. }
  intros _. cbn [snd]. rewrite load_config_eq, Hex, Hmt. cbn [negb].
  destruct (report_fields (load_error_msg e)
              (mkWorld rules mtime "" (APPLIED_COLORS s) (sent s)
                       (stdout s) (stderr s))) as (_ & Hm & _).
  rewrite Hm. cbn [LAST_MTIME]. by rewrite Z.leb_refl.
Qed.

Lemma load_config_failure_idempotent_witness :
  let s' := (load_config "tab_colors.json" Ex.file_malformed Ex.world_applied).2 in
  load_config "tab_colors.json" Ex.file_malformed s' = (Ok false, s') ∧
  stderr s' = ["Error loading config: Expecting value: line 1 column 1 (char 0)"].
Proof.
  split.
  - apply (load_config_failure_idempotent "tab_colors.json" Ex.file_malformed
             Ex.world_applied).
    vm_compute. discriminate.
  - reflexivity.
Defined.



(** X5: after a successful load, polling again while the time stamp of the
    file has not moved returns [False] and changes nothing: the file is
    not even read, so it does not matter whether its content is the same,
    different or malformed. *)
Theorem load_config_same_mtime_is_noop (CONFIG_FILE : string)
    (file later : ConfigFile.t) (s s1 : World) :
  load_config CONFIG_FILE file s = (Ok true, s1) →
  ConfigFile.exists_ later = true →
  ConfigFile.getmtime later = ConfigFile.getmtime file →
  load_config CONFIG_FILE later s1 = (Ok false, s1).
Proof.
  intros Hload Hex Hmt.
  destruct (load_config_true _ _ _ _ Hload) as (m & rules & n & Hm & _ & _ & _ & Hs1).
  rewrite load_config_eq, Hex, Hmt, Hm. cbn [negb].
  assert (LAST_MTIME s1 = m) as -> by (by rewrite Hs1).
  by rewrite Z.leb_refl.
Qed.

Lemma load_config_same_mtime_is_noop_witness :
  let s1 := (load_config "tab_colors.json" Ex.file_rewritten Ex.world_applied).2 in
  load_config "tab_colors.json" Ex.file_malformed s1 = (Ok false, s1).
Proof.
  apply (load_config_same_mtime_is_noop "tab_colors.json" Ex.file_rewritten
           Ex.file_malformed Ex.world_applied).
  - vm_compute. reflexivity.
  - reflexivity.
  - reflexivity.
Defined.

(** X6: a successful load resets the memory of the last error, so a
    failure that follows it is always printed, even when its text is the
    one printed before the success. *)
Theorem load_config_error_after_success_is_printed (CONFIG_FILE : string)
    (file broken : ConfigFile.t) (s s1 : World) (mtime : Z) (e : string) :
  load_config CONFIG_FILE file s = (Ok true, s1) →
  ConfigFile.exists_ broken = true →
  ConfigFile.getmtime broken = Ok mtime →
  (LAST_MTIME s1 < mtime)%Z →
  ConfigFile.json_load broken = Raise e →
  stderr (load_config CONFIG_FILE broken s1).2 =
    stderr s1 ++ ["Error loading config: " +:+ e].
Proof.
  intros Hload Hex Hmt Hlt Hjson.
  destruct (load_config_true _ _ _ _ Hload) as (m & rules & n & _ & _ & _ & _ & Hs1).
  rewrite load_config_eq, Hex, Hmt, Hjson. cbn [negb].
  destruct (Z.leb_spec mtime (LAST_MTIME s1)); [lia |].
  cbn [snd]. rewrite report_stderr.
  assert (LAST_ERROR s1 = "") as -> by (by rewrite Hs1).
  reflexivity.
Qed.

Lemma load_config_error_after_success_is_printed_witness :
  let s0 := (load_config "tab_colors.json"
               (ConfigFile.mk true (Ok 50%Z) (Raise "bad")) initial_world).2 in
  let s1 := (load_config "tab_colors.json"
               (ConfigFile.mk true (Ok 100%Z) (Ok (Rules [Ex.rule_firefox]))) s0).2 in
  stderr s0 = ["Error loading config: bad"] ∧
  stderr (load_config "tab_colors.json"
            (ConfigFile.mk true (Ok 150%Z) (Raise "bad")) s1).2 =
    ["Error loading config: bad"; "Error loading config: bad"].
Proof.
  intros s0 s1. split; [reflexivity |].
  apply (load_config_error_after_success_is_printed "tab_colors.json"
           (ConfigFile.mk true (Ok 100%Z) (Ok (Rules [Ex.rule_firefox])))
           (ConfigFile.mk true (Ok 150%Z) (Raise "bad")) s0 s1 150 "bad").
  - vm_compute. reflexivity.
  - reflexivity.
  - reflexivity.
  - vm_compute. reflexivity.
  - reflexivity.
Defined.

(** ** Events: what a call can and cannot change *)

Lemma same_config_refl s : same_config s s.
Proof. by repeat split. Qed.

Lemma same_config_trans s1 s2 s3 :
  same_config s1 s2 → same_config s2 s3 → same_config s1 s3.
Proof. intros (?&?&?) (?&?&?). repeat split; congruence. Qed.

Lemma apply_title_format_same_config ipc w bg text s :
  same_config s (apply_title_format ipc w bg text s).2.
Proof.
  destruct (apply_title_format_cases ipc w bg text s)
    as [-> | [-> | [e ->]]]; by repeat split.
Qed.

Lemma match_and_apply_same_config ipc w s :
  same_config s (match_and_apply ipc w s).2.
Proof.
  destruct (scan_rules (props_of w) (COLOR_RULES s)) as [d|e] eqn:Hd.
  - rewrite (match_and_apply_decided _ _ _ _ Hd).
    apply apply_title_format_same_config.
  - rewrite (match_and_apply_raise _ _ _ _ Hd). apply same_config_refl.
Qed.

(** A call touches the cache entry of its own window only. *)
Lemma match_and_apply_frame ipc w s k :
  k ≠ Con.id w →
  APPLIED_COLORS (match_and_apply ipc w s).2 !! k = APPLIED_COLORS s !! k.
Proof.
  intros Hk.
  destruct (scan_rules (props_of w) (COLOR_RULES s)) as [d|e] eqn:Hd.
  - rewrite (match_and_apply_decided _ _ _ _ Hd).
    destruct (apply_title_format_cases ipc w d.1 d.2 s)
      as [-> | [-> | [e ->]]]; simpl; try done.
    by rewrite lookup_insert_ne.
  - by rewrite (match_and_apply_raise _ _ _ _ Hd).
Qed.

(** A call sends nothing, or the one command the rules call for. *)
Lemma match_and_apply_sent ipc w s :
  sent (match_and_apply ipc w s).2 = sent s
  ∨ sent (match_and_apply ipc w s).2 = sent s ++ commands_for (COLOR_RULES s) w
    ∧ length (commands_for (COLOR_RULES s) w) = 1.
Proof.
  unfold commands_for.
  destruct (scan_rules (props_of w) (COLOR_RULES s)) as [d|e] eqn:Hd.
  - rewrite (match_and_apply_decided _ _ _ _ Hd).
    destruct (apply_title_format_cases ipc w d.1 d.2 s)
      as [-> | [-> | [e ->]]]; simpl; auto.
  - rewrite (match_and_apply_raise _ _ _ _ Hd). by left.
Qed.

Lemma on_window_event_eq ipc w s :
  on_window_event ipc w s =
  match match_and_apply ipc w s with
  | (Ok _, s') => (Ok tt, s')
  | (Raise e, s') => (Ok tt, add_stderr ("Error: " +:+ e) s')
  end.
Proof.
  unfold on_window_event, try_except, modify.
  by destruct (match_and_apply ipc w s) as [[[]|e] s'].
Qed.

(** X7: the event handler never raises, whatever the rules, the window and
    the connection do.  It leaves the rules, the time stamp and the
    remembered error alone, touches no cache entry but the one of its own
    window, and sends at most one command: none, or the one the rules call
    for on that window. *)
Theorem on_window_event_never_raises (ipc : Connection.t) (window : Con.t)
    (s : World) :
  let s' := (on_window_event ipc window s).2 in
  on_window_event ipc window s = (Ok tt, s') ∧
  same_config s s' ∧
  (∀ k : Z, k ≠ Con.id window →
     APPLIED_COLORS s' !! k = APPLIED_COLORS s !! k) ∧
  (sent s' = sent s ∨
   sent s' = sent s ++ commands_for (COLOR_RULES s) window ∧
   length (commands_for (COLOR_RULES s) window) = 1).
Proof.
  rewrite on_window_event_eq.
  pose proof (match_and_apply_same_config ipc window s) as Hcfg.
  pose proof (match_and_apply_frame ipc window s) as Hframe.
  pose proof (match_and_apply_sent ipc window s) as Hsent.
  destruct (match_and_apply ipc window s) as [[[]|e] s1]; simpl in *; done.
Qed.

Lemma on_window_event_never_raises_witness :
  let s' := (on_window_event Ex.ipc_broken Ex.browser Ex.world_applied).2 in
  on_window_event Ex.ipc_broken Ex.browser Ex.world_applied = (Ok tt, s') ∧
  APPLIED_COLORS s' !! 8%Z = APPLIED_COLORS Ex.world_applied !! 8%Z.
Proof.
  destruct (on_window_event_never_raises Ex.ipc_broken Ex.browser Ex.world_applied)
    as (Hrun & _ & Hframe & _).
  split; [exact Hrun |]. apply Hframe. vm_compute. discriminate.
Defined.

Lemma rule_matches_bad_match props rule v e :
  rule !! "match" = Some v →
  py_lower v = Raise e →
  rule_matches props rule = Raise e.
Proof.
  intros Hv He. unfold rule_matches, check_generic.
  rewrite (has_key_true _ _ _ Hv). unfold getitem. rewrite Hv.
  cbn [mbind result_bind]. by rewrite He.
Qed.

(** X8: one rule at the head of the list whose [match] member is not a
    string ([null], a number, [true]) stops all colouring: for every
    window the matcher raises, and the event handler sends nothing,
    leaves the cache alone and only prints the error. *)
Theorem non_string_match_disables_events (ipc : Connection.t) (window : Con.t)
    (s : World) (rule : gmap string pyval)
    (rest : list (gmap string pyval)) (v : pyval) :
  COLOR_RULES s = rule :: rest →
  rule !! "match" = Some v →
  (∀ x, v ≠ PStr x) →
  ∃ e, get_colors_for_window window s = (Raise e, s) ∧
       on_window_event ipc window s =
         (Ok tt, add_stderr ("Error: " +:+ e) s).
Proof.
  intros Hs Hv Hns.
  assert (∃ e, py_lower v = Raise e) as [e He].
  { destruct v; simpl; eauto. by destruct (Hns s0). }
  exists e.
  assert (scan_rules (props_of window) (COLOR_RULES s) = Raise e) as Hscan.
  { rewrite Hs. simpl. by rewrite (rule_matches_bad_match _ _ v e). }
  split.
  - by rewrite get_colors_for_window_eq, Hscan.
  - by rewrite on_window_event_eq, (match_and_apply_raise _ _ _ _ Hscan).
Qed.

Lemma non_string_match_disables_events_witness :
  on_window_event Ex.ipc_ok Ex.browser
    (set_COLOR_RULES [{["match" := PInt 5]}; Ex.rule_firefox] initial_world)
  = (Ok tt,
     add_stderr "Error: 'int' object has no attribute 'lower'"
       (set_COLOR_RULES [{["match" := PInt 5]}; Ex.rule_firefox] initial_world)).
Proof.
  destruct (non_string_match_disables_events Ex.ipc_ok Ex.browser
              (set_COLOR_RULES [{["match" := PInt 5]}; Ex.rule_firefox]
                               initial_world)
              {["match" := PInt 5]} [Ex.rule_firefox] (PInt 5))
    as (e & Hget & Hev).
  - reflexivity.
  - reflexivity.
  - discriminate.
  - vm_compute in Hget. injection Hget as <-. exact Hev.
Defined.

(** X9: for colours that are strings or absent, a call is suppressed
    exactly when the cache holds this very pair for the window: the
    comparison of lines 57-60 never withholds a command that differs from
    the one recorded. *)
Theorem cache_hit_iff_same_pair (cache : gmap Z (pyval * pyval))
    (window : Con.t) (bg text : pyval) :
  is_color bg → is_color text →
  already_applied cache window bg text = true ↔
  cache !! Con.id window = Some (bg, text).
Proof.
  intros Hbg Htext. unfold already_applied. split.
  - destruct (cache !! Con.id window) as [[last_bg last_text]|]; [| discriminate].
    rewrite andb_true_iff. intros [H1 H2].
    assert (∀ last c, is_color c → py_eq last c = true → last = c) as Heq.
    { intros last c [-> | [x ->]] H; destruct last; simpl in H;
        try discriminate; try done.
      by apply String.eqb_eq in H as ->. }
    by rewrite (Heq _ _ Hbg H1), (Heq _ _ Htext H2).
  - intros ->. by rewrite !py_eq_refl.
Qed.

Lemma cache_hit_iff_same_pair_witness :
  already_applied {[7%Z := (PStr "#ff6600", PNone)]} Ex.browser
    (PStr "#ff6600") PNone = true
  ↔ ({[7%Z := (PStr "#ff6600", PNone)]} : gmap Z (pyval * pyval)) !! Con.id Ex.browser
    = Some (PStr "#ff6600", PNone).
Proof.
  apply (cache_hit_iff_same_pair {[7%Z := (PStr "#ff6600", PNone)]} Ex.browser
           (PStr "#ff6600") PNone).
  - right. by exists "#ff6600".
  - by left.
Defined.

(** ** Sweeps over the window tree *)

Lemma for_each_app {A} (xs ys : list A) (body : A → M unit) (s : World) :
  for_each (xs ++ ys) body s =
  match for_each xs body s with
  | (Ok _, s') => for_each ys body s'
  | (Raise e, s') => (Raise e, s')
  end.
Proof.
  revert s. induction xs as [|x xs IH]; intros s; simpl; [done |].
  unfold mbind, M_bind. destruct (body x s) as [[[]|e] s1]; [apply IH | done].
Qed.

Lemma for_each_cons {A} (x : A) (xs : list A) (body : A → M unit) (s : World) :
  for_each (x :: xs) body s =
  match body x s with
  | (Ok _, s') => for_each xs body s'
  | (Raise e, s') => (Raise e, s')
  end.
Proof. simpl. unfold mbind, M_bind. by destruct (body x s) as [[[]|e] s1]. Qed.

Lemma apply_to_all_windows_eq ipc leaves s :
  Connection.get_tree ipc = Ok leaves →
  apply_to_all_windows ipc s = for_each leaves (match_and_apply ipc) s.
Proof. intros H. unfold apply_to_all_windows, lift, mbind, M_bind. by rewrite H. Qed.

Lemma for_each_same_config ipc ws s :
  same_config s (for_each ws (match_and_apply ipc) s).2.
Proof.
  revert s. induction ws as [|w ws IH]; intros s; [apply same_config_refl |].
  rewrite for_each_cons.
  pose proof (match_and_apply_same_config ipc w s) as Hstep.
  destruct (match_and_apply ipc w s) as [[[]|e] s1]; simpl in *; [| done].
  eapply same_config_trans; [exact Hstep | apply IH].
Qed.

Lemma for_each_frame ipc ws s k :
  k ∉ (Con.id <$> ws) →
  APPLIED_COLORS (for_each ws (match_and_apply ipc) s).2 !! k
  = APPLIED_COLORS s !! k.
Proof.
  revert s. induction ws as [|w ws IH]; intros s Hk; [done |].
  rewrite fmap_cons, not_elem_of_cons in Hk. destruct Hk as [Hne Hk].
  rewrite for_each_cons.
  pose proof (match_and_apply_frame ipc w s k Hne) as Hstep.
  destruct (match_and_apply ipc w s) as [[[]|e] s1]; simpl in *; [| done].
  by rewrite IH.
Qed.

(** X10: a sweep stops at the first window for which the matcher or the
    command raises.  The exception leaves [apply_to_all_windows], and the
    windows that come later in the tree get no command and no cache entry
    in this sweep, whatever they are. *)
Theorem sweep_stops_at_first_failure (ipc : Connection.t)
    (before after : list Con.t) (window : Con.t)
    (s s_mid s_fail : World) (e : string) :
  Connection.get_tree ipc = Ok (before ++ window :: after) →
  for_each before (match_and_apply ipc) s = (Ok tt, s_mid) →
  match_and_apply ipc window s_mid = (Raise e, s_fail) →
  apply_to_all_windows ipc s = (Raise e, s_fail) ∧
  ∀ after' : list Con.t,
    for_each (before ++ window :: after') (match_and_apply ipc) s
    = (Raise e, s_fail).
Proof.
  intros Htree Hbefore Hfail.
  assert (∀ after', for_each (before ++ window :: after')
                      (match_and_apply ipc) s = (Raise e, s_fail)) as Hall.
  { intros after'. rewrite for_each_app, Hbefore, for_each_cons. by rewrite Hfail. }
  split; [| exact Hall].
  rewrite (apply_to_all_windows_eq _ _ _ Htree). apply Hall.
Qed.

Lemma sweep_stops_at_first_failure_witness :
  let ipc := Connection.mk (λ _, None) (Ok [Ex.browser; Ex.no_shell; Ex.xterm]) in
  let s := set_COLOR_RULES [Ex.rule_shell] initial_world in
  let cmd := title_cmd Ex.browser PNone PNone in
  let s_fail := set_APPLIED_COLORS {[7%Z := (PNone, PNone)]} (add_sent cmd s) in
  apply_to_all_windows ipc s =
    (Raise "'NoneType' object has no attribute 'lower'", s_fail) ∧
  sent s_fail = [cmd].
Proof.
  intros ipc s cmd s_fail. split; [| reflexivity].
  apply (sweep_stops_at_first_failure ipc [Ex.browser] [Ex.xterm] Ex.no_shell
           s s_fail s_fail).
  - reflexivity.
  - vm_compute. reflexivity.
  - vm_compute. reflexivity.
Defined.

Lemma match_and_apply_miss_ok ipc w s d :
  decided (COLOR_RULES s) w d →
  already_applied (APPLIED_COLORS s) w d.1 d.2 = false →
  Connection.command ipc (title_cmd w d.1 d.2) = None →
  match_and_apply ipc w s =
  (Ok tt,
   set_APPLIED_COLORS (<[Con.id w := d]> (APPLIED_COLORS s))
                      (add_sent (title_cmd w d.1 d.2) s)).
Proof.
  intros Hd Hmiss Hc. rewrite (match_and_apply_decided _ _ _ _ Hd).
  rewrite (apply_miss_ok _ _ _ _ _ Hmiss Hc). by destruct d.
Qed.

Lemma already_applied_lookup cache cache' w bg text :
  cache' !! Con.id w = cache !! Con.id w →
  already_applied cache' w bg text = already_applied cache w bg text.
Proof. intros H. unfold already_applied. by rewrite H. Qed.

Lemma commands_for_decided rules w d :
  decided rules w d → commands_for rules w = [title_cmd w d.1 d.2].
Proof. intros H. unfold commands_for. by rewrite H. Qed.

(** The sweep over windows with distinct ids, none of which has its
    decision recorded yet, over a connection that delivers. *)
Lemma for_each_fresh ipc ws s :
  NoDup (Con.id <$> ws) →
  (∀ w, w ∈ ws →
     ∃ d, decided (COLOR_RULES s) w d ∧
          already_applied (APPLIED_COLORS s) w d.1 d.2 = false ∧
          Connection.command ipc (title_cmd w d.1 d.2) = None) →
  let s' := (for_each ws (match_and_apply ipc) s).2 in
  for_each ws (match_and_apply ipc) s = (Ok tt, s') ∧
  sent s' = sent s ++ flat_map (commands_for (COLOR_RULES s)) ws ∧
  ∀ w d, w ∈ ws → decided (COLOR_RULES s) w d →
         APPLIED_COLORS s' !! Con.id w = Some d.
Proof.
  revert s. induction ws as [|w ws IH]; intros s Hnd Hall.
  { simpl. repeat split; [by rewrite app_nil_r | by intros ?? ?%elem_of_nil]. }
  rewrite fmap_cons in Hnd. apply NoDup_cons in Hnd as [Hw Hnd].
  destruct (Hall w) as (d & Hd & Hmiss & Hc); [by left |].
  pose proof (match_and_apply_miss_ok ipc w s d Hd Hmiss Hc) as Hstep.
  set (s1 := set_APPLIED_COLORS _ _) in Hstep.
  assert (COLOR_RULES s1 = COLOR_RULES s) as Hrules by done.
  assert (∀ v, v ∈ ws → Con.id v ≠ Con.id w) as Hids.
  { intros v Hv Heq. apply Hw. rewrite <- Heq. by apply list_elem_of_fmap_2. }
  destruct (IH s1 Hnd) as (Hrun & Hsent & Hcache).
  { intros v Hv. destruct (Hall v) as (dv & Hdv & Hmv & Hcv); [by right |].
    exists dv. rewrite Hrules. repeat split; try done.
    rewrite <- Hmv. apply already_applied_lookup.
    simpl. rewrite lookup_insert_ne; [done |]. intros Heq. by apply (Hids v). }
  cbn zeta. rewrite for_each_cons, Hstep. rewrite Hrun.
  cbn [snd]. repeat split.
  - rewrite Hsent, Hrules. simpl.
    rewrite (commands_for_decided _ _ _ Hd). by rewrite <- app_assoc.
  - intros v dv Hv Hdv. apply elem_of_cons in Hv as [-> | Hv].
    + rewrite for_each_frame; [| exact Hw].
      simpl. rewrite lookup_insert_eq.
      unfold decided in *. congruence.
    + apply Hcache; [done |]. by rewrite Hrules.
Qed.

(** X11: a sweep over windows with distinct ids, none of which has its
    decision recorded yet, over a connection that delivers, returns
    normally, sends exactly one command per window, in the order of the
    tree, and records each window's decision. *)
Theorem sweep_sends_one_command_per_window (ipc : Connection.t)
    (leaves : list Con.t) (s : World) :
  Connection.get_tree ipc = Ok leaves →
  NoDup (Con.id <$> leaves) →
  (∀ w, w ∈ leaves →
     ∃ d, decided (COLOR_RULES s) w d ∧
          already_applied (APPLIED_COLORS s) w d.1 d.2 = false ∧
          Connection.command ipc (title_cmd w d.1 d.2) = None) →
  let s' := (apply_to_all_windows ipc s).2 in
  apply_to_all_windows ipc s = (Ok tt, s') ∧
  sent s' = sent s ++ flat_map (commands_for (COLOR_RULES s)) leaves ∧
  length (sent s') = length (sent s) + length leaves ∧
  ∀ w d, w ∈ leaves → decided (COLOR_RULES s) w d →
         APPLIED_COLORS s' !! Con.id w = Some d.
Proof.
  intros Htree Hnd Hall.
  rewrite (apply_to_all_windows_eq _ _ _ Htree).
  destruct (for_each_fresh ipc leaves s Hnd Hall) as (Hrun & Hsent & Hcache).
  repeat split; try done.
  rewrite Hsent, length_app. f_equal.
  clear -Hall. induction leaves as [|w ws IH]; [done |].
  simpl. rewrite length_app.
  destruct (Hall w) as (d & Hd & _); [by left |].
  rewrite (commands_for_decided _ _ _ Hd). simpl. f_equal.
  apply IH. intros v Hv. apply Hall. by right.
Qed.

Lemma sweep_sends_one_command_per_window_witness :
  let s' := (apply_to_all_windows Ex.ipc_ok Ex.world_loaded).2 in
  apply_to_all_windows Ex.ipc_ok Ex.world_loaded = (Ok tt, s') ∧
  sent s' = [title_cmd Ex.browser (PStr "#ff6600") PNone;
             title_cmd Ex.xterm PNone PNone] ∧
  length (sent s') = 2.
Proof.
  destruct (sweep_sends_one_command_per_window Ex.ipc_ok [Ex.browser; Ex.xterm]
              Ex.world_loaded) as (Hrun & Hsent & Hlen & _).
  - reflexivity.
  - apply (bool_decide_unpack _). by vm_compute.
  - intros w Hw. apply elem_of_cons in Hw as [-> | Hw].
    + exists (PStr "#ff6600", PNone). by vm_compute.
    + apply elem_of_cons in Hw as [-> | Hw]; [| by apply elem_of_nil in Hw].
      exists (PNone, PNone). by vm_compute.
  - split; [exact Hrun |]. split; [exact Hsent | exact Hlen].
Defined.

Lemma match_and_apply_ok_applied ipc w s s1 :
  match_and_apply ipc w s = (Ok tt, s1) →
  ∃ d, decided (COLOR_RULES s1) w d ∧
       already_applied (APPLIED_COLORS s1) w d.1 d.2 = true.
Proof.
  intros Hrun.
  destruct (scan_rules (props_of w) (COLOR_RULES s)) as [d|e] eqn:Hd.
  2:{ rewrite (match_and_apply_raise _ _ _ _ Hd) in Hrun. discriminate. }
  exists d. rewrite (match_and_apply_decided _ _ _ _ Hd) in Hrun.
  destruct (already_applied (APPLIED_COLORS s) w d.1 d.2) eqn:Hhit.
  - rewrite (apply_hit _ _ _ _ _ Hhit) in Hrun. by injection Hrun as <-.
  - destruct (Connection.command ipc (title_cmd w d.1 d.2)) as [e|] eqn:Hc.
    + rewrite (apply_miss_raise _ _ _ _ _ e Hhit Hc) in Hrun. discriminate.
    + rewrite (apply_miss_ok _ _ _ _ _ Hhit Hc) in Hrun. injection Hrun as <-.
      split; [exact Hd |]. simpl. apply already_applied_insert.
Qed.

Lemma for_each_ok_all_applied ipc ws s s1 :
  NoDup (Con.id <$> ws) →
  for_each ws (match_and_apply ipc) s = (Ok tt, s1) →
  ∀ w, w ∈ ws →
    ∃ d, decided (COLOR_RULES s1) w d ∧
         already_applied (APPLIED_COLORS s1) w d.1 d.2 = true.
Proof.
  revert s. induction ws as [|w ws IH]; intros s Hnd Hrun v Hv.
  { by apply elem_of_nil in Hv. }
  rewrite fmap_cons in Hnd. apply NoDup_cons in Hnd as [Hw Hnd].
  rewrite for_each_cons in Hrun.
  destruct (match_and_apply ipc w s) as [[[]|e] sa] eqn:Hstep; [| discriminate].
  apply elem_of_cons in Hv as [-> | Hv]; [| by apply (IH sa)].
  destruct (match_and_apply_ok_applied _ _ _ _ Hstep) as (d & Hd & Hhit).
  pose proof (for_each_same_config ipc ws sa) as (Hrules & _).
  pose proof (for_each_frame ipc ws sa (Con.id w) Hw) as Hframe.
  rewrite Hrun in Hrules, Hframe. simpl in Hrules, Hframe.
  exists d. unfold decided. rewrite Hrules. split; [exact Hd |].
  rewrite <- Hhit. by apply already_applied_lookup.
Qed.

Lemma for_each_all_hit ipc ws s :
  (∀ w, w ∈ ws →
     ∃ d, decided (COLOR_RULES s) w d ∧
          already_applied (APPLIED_COLORS s) w d.1 d.2 = true) →
  for_each ws (match_and_apply ipc) s = (Ok tt, s).
Proof.
  induction ws as [|w ws IH]; intros Hall; [done |].
  destruct (Hall w) as (d & Hd & Hhit); [by left |].
  rewrite for_each_cons, (match_and_apply_decided _ _ _ _ Hd).
  rewrite (apply_hit _ _ _ _ _ Hhit). apply IH.
  intros v Hv. apply Hall. by right.
Qed.

(** X12: a sweep that returned normally over windows with distinct ids has
    nothing left to do: sweeping the same windows again, over any
    connection, returns in the same state, so it sends no command. *)
Theorem sweep_again_is_silent (ipc ipc' : Connection.t) (leaves : list Con.t)
    (s s1 : World) :
  Connection.get_tree ipc = Ok leaves →
  Connection.get_tree ipc' = Ok leaves →
  NoDup (Con.id <$> leaves) →
  apply_to_all_windows ipc s = (Ok tt, s1) →
  apply_to_all_windows ipc' s1 = (Ok tt, s1).
Proof.
  intros Htree Htree' Hnd Hrun.
  rewrite (apply_to_all_windows_eq _ _ _ Htree) in Hrun.
  rewrite (apply_to_all_windows_eq _ _ _ Htree').
  apply for_each_all_hit. by apply (for_each_ok_all_applied ipc leaves s).
Qed.

Lemma sweep_again_is_silent_witness :
  let s1 := (apply_to_all_windows Ex.ipc_ok Ex.world_loaded).2 in
  apply_to_all_windows
    (Connection.mk (λ _, Some "[Errno 32] Broken pipe") (Ok [Ex.browser; Ex.xterm]))
    s1 = (Ok tt, s1).
Proof.
  apply (sweep_again_is_silent Ex.ipc_ok _ [Ex.browser; Ex.xterm] Ex.world_loaded).
  - reflexivity.
  - reflexivity.
  - apply (bool_decide_unpack _). by vm_compute.
  - vm_compute. reflexivity.
Defined.

(** Without distinct ids the second sweep is not silent: two leaves that
    share an id and get different decisions overwrite each other's entry. *)
Example sweep_again_needs_distinct_ids :
  let twin := Con.mk 7 None (Some "other") None None None None in
  let ipc := Connection.mk (λ _, None) (Ok [Ex.browser; twin]) in
  let s1 := (apply_to_all_windows ipc Ex.world_loaded).2 in
  length (sent s1) = 2 ∧
  length (sent (apply_to_all_windows ipc s1).2) = 4.
Proof. split; vm_compute; reflexivity. Qed.

(** ** The format and its escaping *)

(** X13: a colour that is present but empty, zero or false counts as
    absent when the format is built: with two such colours the command is
    the bare one, the same as for [(None, None)]. *)
Theorem falsy_colors_render_bare (window : Con.t) (bg text : pyval) :
  truthy bg = false →
  truthy text = false →
  title_fmt window bg text = "%title" +:+ suffix_of window ∧
  title_cmd window bg text = title_cmd window PNone PNone.
Proof.
  intros Hbg Htext.
  assert (title_fmt window bg text = "%title" +:+ suffix_of window) as Hfmt.
  { apply title_fmt_bare. by rewrite Hbg, Htext. }
  split; [exact Hfmt |].
  unfold title_cmd. by rewrite Hfmt, (title_fmt_bare window PNone PNone eq_refl).
Qed.

Lemma falsy_colors_render_bare_witness :
  title_fmt Ex.xterm (PStr "") (PInt 0) = "%title" +:+ suffix_of Ex.xterm ∧
  title_cmd Ex.xterm (PStr "") (PInt 0) = title_cmd Ex.xterm PNone PNone.
Proof. by apply (falsy_colors_render_bare Ex.xterm (PStr "") (PInt 0)). Defined.

Lemma quotes_escaped_escape (s : string) (b : bool) :
  quotes_escaped b (escape_dquotes s) = true.
Proof.
  revert b. induction s as [|c s IH]; intros b; [done |].
  cbn [escape_dquotes].
  destruct (Ascii.eqb c dquote) eqn:Hc.
  - cbn [quotes_escaped].
    assert (Ascii.eqb backslash dquote = false) as -> by reflexivity.
    assert (Ascii.eqb backslash backslash = true) as -> by reflexivity.
    rewrite Ascii.eqb_refl. cbn [andb]. apply IH.
  - cbn [quotes_escaped]. rewrite Hc. apply IH.
Qed.

Lemma str_in_cons_false (key s : string) (c : Ascii.ascii) :
  str_in key (String c s) = false → str_in key s = false.
Proof. cbn [str_in]. by intros [_ ?]%orb_false_iff. Qed.

Lemma escape_dquotes_id (s : string) :
  str_in (String dquote "") s = false → escape_dquotes s = s.
Proof.
  induction s as [|c s IH]; intros H; [done |].
  cbn [escape_dquotes].
  destruct (Ascii.eqb_spec c dquote) as [-> | Hne].
  - exfalso. cbn [str_in] in H. apply orb_false_iff in H as [H _].
    assert (String.prefix (String dquote "") (String dquote s) = true) as Hp
      by (apply prefix_spec; by exists s).
    congruence.
  - f_equal. apply IH. by apply (str_in_cons_false _ _ c).
Qed.

(** X14: the escaping of line 80 leaves a format without double quotes as
    it is, and in what it produces every double quote comes right after
    a backslash, so that none can end the quoted argument of the command
    early. *)
Theorem escaped_format_has_no_bare_quote (window : Con.t) (bg text : pyval) :
  quotes_escaped false (escape_dquotes (title_fmt window bg text)) = true ∧
  (str_in (String dquote "") (title_fmt window bg text) = false →
   escape_dquotes (title_fmt window bg text) = title_fmt window bg text).
Proof. split; [apply quotes_escaped_escape | apply escape_dquotes_id]. Qed.

Lemma escaped_format_has_no_bare_quote_witness :
  escape_dquotes (title_fmt Ex.xterm (PStr "red") PNone)
  = title_fmt Ex.xterm (PStr "red") PNone.
Proof.
  apply (escaped_format_has_no_bare_quote Ex.xterm (PStr "red") PNone).
  vm_compute. reflexivity.
Defined.

(** A colour that carries a double quote: the quote is escaped, the
    backslash in front of it is not. *)
Example escape_dquotes_example :
  escape_dquotes (String backslash (String dquote "x"))
  = String backslash (String backslash (String dquote "x")).
Proof. reflexivity. Qed.

(** ** The matcher on well-formed rules *)

(** X15: a rule with no [match] and none of the six specific fields
    matches every window, also one whose reply has no [shell] member; at
    the head of the list it decides for every window, and nothing after
    it is evaluated, not even a rule that could not be. *)
Theorem catch_all_rule_matches_everything (rule : gmap string pyval)
    (rest : list (gmap string pyval)) (window : Con.t) (s : World) :
  rule !! "match" = None →
  no_specific_fields rule →
  COLOR_RULES s = rule :: rest →
  rule_matches (props_of window) rule = Ok true ∧
  get_colors_for_window window s = (Ok (rule_colors rule), s).
Proof.
  intros Hm Hnone Hs.
  assert (rule_matches (props_of window) rule = Ok true) as Hmatch.
  { unfold rule_matches. rewrite (check_generic_absent _ _ Hm).
    cbn [mbind result_bind]. by apply check_specific_no_keys. }
  split; [exact Hmatch |].
  rewrite get_colors_for_window_eq, Hs. simpl. by rewrite Hmatch.
Qed.

Lemma catch_all_rule_matches_everything_witness :
  get_colors_for_window Ex.no_shell
    (set_COLOR_RULES [Ex.rule_red; Ex.rule_shell] initial_world)
  = (Ok (PStr "red", PNone),
     set_COLOR_RULES [Ex.rule_red; Ex.rule_shell] initial_world).
Proof.
  apply (catch_all_rule_matches_everything Ex.rule_red [Ex.rule_shell]
           Ex.no_shell).
  - reflexivity.
  - repeat constructor.
  - reflexivity.
Defined.

(** The inner loop on a rule and a snapshot that hold strings only. *)
Lemma check_specific_strings props rule names is_match :
  (∀ n v, n ∈ names → rule !! n = Some v → ∃ x, v = PStr x) →
  (∀ n, n ∈ names → ∃ a, props !! n = Some (PStr a)) →
  ∃ b, check_specific props rule names is_match = Ok b ∧
       (b = true ↔
        is_match = true ∧
        ∀ n x a, n ∈ names → rule !! n = Some (PStr x) →
                 props !! n = Some (PStr a) →
                 occurs_in (lower x) (lower a)).
Proof.
  induction names as [|n names IH]; intros Hrule Hprops.
  { exists is_match. split; [done |]. split; [| by intros [? _]].
    intros ->. split; [done |]. by intros ??? ?%elem_of_nil. }
  destruct IH as (b & Hb & Hiff).
  { intros m v Hm. apply Hrule. by right. }
  { intros m Hm. apply Hprops. by right. }
  destruct (Hprops n) as [a Ha]; [by left |].
  destruct (rule !! n) as [v|] eqn:Hv.
  - destruct (Hrule n v) as [x ->]; [by left | done |].
    destruct (str_in (lower x) (lower a)) eqn:Hin.
    + rewrite (check_specific_step _ _ _ _ _ x a Hv Ha Hin).
      exists b. split; [exact Hb |]. rewrite Hiff. split.
      * intros [-> Hrest]. split; [done |].
        intros m y c Hm Hy Hc. apply elem_of_cons in Hm as [-> | Hm]; [| eauto].
        rewrite Hv in Hy. rewrite Ha in Hc. injection Hy as <-. injection Hc as <-.
        by apply str_in_spec.
      * intros [-> Hall]. split; [done |].
        intros m y c Hm. apply Hall. by right.
    + exists false. split.
      * simpl. rewrite (has_key_true _ _ _ Hv). unfold getitem.
        rewrite Hv, Ha. simpl. by rewrite Hin.
      * split; [discriminate |]. intros [_ Hall].
        assert (occurs_in (lower x) (lower a)) as Hocc
          by (apply (Hall n x a); [by left | done | done]).
        apply str_in_spec in Hocc. congruence.
  - simpl. rewrite (has_key_false _ _ Hv). exists b. split; [exact Hb |].
    rewrite Hiff. split.
    + intros [-> Hrest]. split; [done |].
      intros m y c Hm Hy Hc. apply elem_of_cons in Hm as [-> | Hm]; [| eauto].
      congruence.
    + intros [-> Hall]. split; [done |].
      intros m y c Hm. apply Hall. by right.
Qed.

(** X16: on a rule whose constraints are all strings and a snapshot that
    holds strings only, the matcher never raises, and the rule matches
    exactly when its [match] key, if it has one, occurs in the title, the
    app_id or the class, and every specific field it has occurs in the
    attribute of the same name, all compared in lower case. *)
Theorem rule_matches_iff (rule : gmap string pyval) (window : Con.t) :
  string_constraints rule →
  string_props (props_of window) →
  ∃ b, rule_matches (props_of window) rule = Ok b ∧
       (b = true ↔
        (∀ key, rule !! "match" = Some (PStr key) → key_occurs key window) ∧
        (∀ n x a, n ∈ PROP_NAMES → rule !! n = Some (PStr x) →
                  props_of window !! n = Some (PStr a) →
                  occurs_in (lower x) (lower a))).
Proof.
  intros Hrule Hprops. unfold rule_matches.
  assert (∃ g, check_generic (props_of window) rule = Ok g ∧
               (g = true ↔ ∀ key, rule !! "match" = Some (PStr key) →
                                  key_occurs key window)) as (g & Hg & Hgiff).
  { destruct (rule !! "match") as [v|] eqn:Hv.
    - destruct (Hrule "match" v) as [key ->]; [by left | done |].
      rewrite (check_generic_str _ _ _ Hv). eexists. split; [done |].
      rewrite key_occurs_bool. split; [by intros ? ? [= <-] |]. eauto.
    - rewrite (check_generic_absent _ _ Hv). exists true. split; [done |].
      split; [| done]. intros _ key. discriminate. }
  rewrite Hg. cbn [mbind result_bind].
  destruct (check_specific_strings (props_of window) rule PROP_NAMES g)
    as (b & Hb & Hiff).
  { intros n v Hn. apply Hrule. by right. }
  { exact Hprops. }
  exists b. split; [exact Hb |]. rewrite Hiff, Hgiff. done.
Qed.

Lemma rule_matches_iff_witness :
  ∃ b, rule_matches (props_of Ex.browser) Ex.rule_term = Ok b ∧
       (b = true ↔
        (∀ key, Ex.rule_term !! "match" = Some (PStr key) →
                key_occurs key Ex.browser) ∧
        (∀ n x a, n ∈ PROP_NAMES → Ex.rule_term !! n = Some (PStr x) →
                  props_of Ex.browser !! n = Some (PStr a) →
                  occurs_in (lower x) (lower a))).
Proof.
  apply (rule_matches_iff Ex.rule_term Ex.browser).
  - intros n v Hn Hv.
    repeat (apply elem_of_cons in Hn as [-> | Hn];
            [vm_compute in Hv; first [discriminate | injection Hv as <-; by eexists] |]).
    by apply elem_of_nil in Hn.
  - intros n Hn.
    repeat (apply elem_of_cons in Hn as [-> | Hn]; [by eexists |]).
    by apply elem_of_nil in Hn.
Defined.

(** ** Letter case *)

Lemma lowered_prop_bind {B} (p p' : gmap string pyval) (n : string)
    (k : string → result B) :
  (getitem p n ≫= py_lower) = (getitem p' n ≫= py_lower) →
  (v ← getitem p n; a ← py_lower v; k a) = (v ← getitem p' n; a ← py_lower v; k a).
Proof.
  unfold mbind, result_bind.
  destruct (getitem p n) as [v|e], (getitem p' n) as [v'|e']; simpl;
    try destruct (py_lower v); try destruct (py_lower v');
    intros H; by inversion H.
Qed.

Lemma key_in_prop_lowered key p p' n :
  (getitem p n ≫= py_lower) = (getitem p' n ≫= py_lower) →
  key_in_prop key p n = key_in_prop key p' n.
Proof. intros H. unfold key_in_prop. by apply lowered_prop_bind. Qed.

Lemma check_specific_lowered p p' rule names is_match :
  (∀ n, n ∈ names → (getitem p n ≫= py_lower) = (getitem p' n ≫= py_lower)) →
  check_specific p rule names is_match = check_specific p' rule names is_match.
Proof.
  induction names as [|n names IH]; intros H; [done |].
  assert (check_specific p rule names is_match
          = check_specific p' rule names is_match) as Hrest.
  { apply IH. intros m Hm. apply H. by right. }
  simpl. destruct (has_key rule n); [| exact Hrest].
  destruct (getitem rule n) as [rv|e]; [| done]. cbn [mbind result_bind].
  destruct (py_lower rv) as [wanted|e]; [| done]. cbn [mbind result_bind].
  rewrite Hrest. apply lowered_prop_bind. apply H. by left.
Qed.

Lemma rule_matches_lowered p p' rule :
  (∀ n, n ∈ PROP_NAMES → (getitem p n ≫= py_lower) = (getitem p' n ≫= py_lower)) →
  rule_matches p rule = rule_matches p' rule.
Proof.
  intros H. unfold rule_matches.
  assert (check_generic p rule = check_generic p' rule) as ->.
  { unfold check_generic. destruct (has_key rule "match"); [| done].
    destruct (getitem rule "match") as [v|e]; [| done]. cbn [mbind result_bind].
    destruct (py_lower v) as [key|e]; [| done]. cbn [mbind result_bind].
    rewrite (key_in_prop_lowered key p p' "title"),
            (key_in_prop_lowered key p p' "app_id"),
            (key_in_prop_lowered key p p' "class"); [done | ..];
      apply H; unfold PROP_NAMES; set_solver. }
  destruct (check_generic p' rule) as [g|e]; [| done]. cbn [mbind result_bind].
  by apply check_specific_lowered.
Qed.

(** X17: the decision depends on the attributes of the window only up to
    letter case: two windows whose app_id, title, class, instance and role
    are equal once lowercased, and whose replies are the same, get the same
    decision from every rule list. *)
Theorem decision_ignores_letter_case (w w' : Con.t)
    (rules : list (gmap string pyval)) :
  lower (or_empty (Con.app_id w)) = lower (or_empty (Con.app_id w')) →
  lower (or_empty (Con.name w)) = lower (or_empty (Con.name w')) →
  lower (or_empty (Con.window_class w)) = lower (or_empty (Con.window_class w')) →
  lower (or_empty (Con.window_instance w))
    = lower (or_empty (Con.window_instance w')) →
  lower (or_empty (Con.window_role w)) = lower (or_empty (Con.window_role w')) →
  Con.ipc_data w = Con.ipc_data w' →
  scan_rules (props_of w) rules = scan_rules (props_of w') rules.
Proof.
  intros Ha Ht Hc Hi Hr Hd.
  assert (∀ n, n ∈ PROP_NAMES →
               (getitem (props_of w) n ≫= py_lower)
               = (getitem (props_of w') n ≫= py_lower)) as Hprops.
  { intros n. unfold PROP_NAMES. rewrite !elem_of_cons, elem_of_nil.
    intros [->|[->|[->|[->|[->|[->|[]]]]]]]; unfold getitem.
    - rewrite !props_app_id. simpl. by rewrite Ha.
    - rewrite !props_title. simpl. by rewrite Ht.
    - rewrite !props_class. simpl. by rewrite Hc.
    - rewrite !props_instance. simpl. by rewrite Hi.
    - rewrite !props_role. simpl. by rewrite Hr.
    - rewrite !props_shell. by rewrite Hd. }
  induction rules as [|rule rules IH]; [done |].
  simpl. rewrite (rule_matches_lowered _ _ rule Hprops).
  destruct (rule_matches (props_of w') rule) as [[|]|e]; try done.
Qed.

Lemma decision_ignores_letter_case_witness :
  scan_rules (props_of Ex.browser) [Ex.rule_firefox]
  = scan_rules
      (props_of (Con.mk 7 (Some "NAVIGATOR") (Some "EXAMPLE - MOZILLA FIREFOX")
                        None None None (Some {["shell" := PStr "xdg_shell"]})))
      [Ex.rule_firefox].
Proof.
  by apply (decision_ignores_letter_case Ex.browser
              (Con.mk 7 (Some "NAVIGATOR") (Some "EXAMPLE - MOZILLA FIREFOX")
                      None None None (Some {["shell" := PStr "xdg_shell"]}))).
Defined.

(** ** The watcher and the start-up *)

Lemma watcher_handler_eq connect_again current e s :
  watcher_handler connect_again current e s =
  (Ok (match connect_again with Ok c => Some c | Raise _ => current end),
   add_stderr ("Error applying changes in watcher: " +:+ e) s).
Proof. reflexivity. Qed.

Lemma watcher_sweep_ok connect_again c s :
  ∃ w', (watcher_sweep connect_again c s).1 = Ok w' ∧
        same_config s (watcher_sweep connect_again c s).2.
Proof.
  unfold watcher_sweep, try_except, mbind, mret, M_bind, M_ret.
  assert (same_config s (apply_to_all_windows c s).2) as Hcfg.
  { unfold apply_to_all_windows, lift, mbind, M_bind.
    destruct (Connection.get_tree c) as [leaves|e]; simpl;
      [apply for_each_same_config | apply same_config_refl]. }
  destruct (apply_to_all_windows c s) as [[[]|e] s1]; cbn [fst snd] in *.
  - by eexists.
  - rewrite watcher_handler_eq. cbn [fst snd].
    destruct Hcfg as (? & ? & ?). eexists. by repeat split.
Qed.

Lemma watch_config_tick_idle CONFIG_FILE file connect connect_again watcher_ipc s :
  (load_config CONFIG_FILE file s).1 ≠ Ok true →
  watch_config_tick CONFIG_FILE file connect connect_again watcher_ipc s
  = (Ok watcher_ipc, (load_config CONFIG_FILE file s).2).
Proof.
  intros Hnot.
  destruct (load_config_not_true CONFIG_FILE file s Hnot) as (Hfalse & _).
  unfold watch_config_tick, mbind, M_bind.
  destruct (load_config CONFIG_FILE file s) as [r s1]. simpl in *.
  by rewrite Hfalse.
Qed.

Lemma watch_config_tick_changed CONFIG_FILE file connect connect_again
    watcher_ipc s s1 :
  load_config CONFIG_FILE file s = (Ok true, s1) →
  ∃ w', (watch_config_tick CONFIG_FILE file connect connect_again
           watcher_ipc s).1 = Ok w' ∧
        same_config s1 (watch_config_tick CONFIG_FILE file connect connect_again
                          watcher_ipc s).2.
Proof.
  intros Hload. unfold watch_config_tick, mbind, M_bind. rewrite Hload.
  unfold modify. cbn match.
  set (s2 := add_stdout _ s1).
  assert (same_config s1 s2) as H12 by (by repeat split).
  destruct watcher_ipc as [c|]; [| destruct connect as [c|e]].
  - destruct (watcher_sweep_ok connect_again c s2) as (w' & Hw & Hcfg).
    exists w'. split; [exact Hw | by eapply same_config_trans].
  - destruct (watcher_sweep_ok connect_again c s2) as (w' & Hw & Hcfg).
    exists w'. split; [exact Hw | by eapply same_config_trans].
  - rewrite watcher_handler_eq. simpl. eexists. split; [done |]. by repeat split.
Qed.

(** X18: one turn of the watcher never raises, whatever the file system,
    the connection attempts and the sweep do; and when [load_config] does
    not report a change the turn does nothing beyond that call: it keeps
    its connection and sends no command. *)
Theorem watch_config_tick_never_raises (CONFIG_FILE : string)
    (file : ConfigFile.t) (connect connect_again : result Connection.t)
    (watcher_ipc : option Connection.t) (s : World) :
  (∃ w', (watch_config_tick CONFIG_FILE file connect connect_again
            watcher_ipc s).1 = Ok w') ∧
  ((load_config CONFIG_FILE file s).1 ≠ Ok true →
   watch_config_tick CONFIG_FILE file connect connect_again watcher_ipc s
     = (Ok watcher_ipc, (load_config CONFIG_FILE file s).2) ∧
   sent (watch_config_tick CONFIG_FILE file connect connect_again
           watcher_ipc s).2 = sent s).
Proof.
  split.
  - destruct (load_config CONFIG_FILE file s) as [r s1] eqn:Hload.
    assert (r = Ok true ∨ r ≠ Ok true) as [-> | Hnot]
      by (destruct r as [[|]|]; auto; by right).
    + destruct (watch_config_tick_changed CONFIG_FILE file connect connect_again
                  watcher_ipc s s1 Hload) as (w' & Hw & _).
      by exists w'.
    + exists watcher_ipc. rewrite watch_config_tick_idle; [done |].
      by rewrite Hload.
  - intros Hnot. rewrite (watch_config_tick_idle _ _ _ _ _ _ Hnot).
    split; [done |]. apply load_config_sent.
Qed.

Lemma watch_config_tick_never_raises_witness :
  watch_config_tick "tab_colors.json" Ex.file_malformed
    (Raise "no socket") (Raise "no socket") None Ex.world_applied
  = (Ok None,
     (load_config "tab_colors.json" Ex.file_malformed Ex.world_applied).2).
Proof.
  destruct (watch_config_tick_never_raises "tab_colors.json" Ex.file_malformed
              (Raise "no socket") (Raise "no socket") None Ex.world_applied)
    as (_ & Hidle).
  destruct Hidle as (Heq & _); [vm_compute; discriminate |].
  exact Heq.
Defined.

(** X19: a turn that reloaded the rules is not repeated.  Whether its
    sweep went through or raised, a later turn that finds the file with the
    same time stamp does nothing at all: the sweep that failed is not tried
    again until the file changes once more. *)
Theorem watcher_does_not_retry_sweep (CONFIG_FILE : string)
    (file later : ConfigFile.t)
    (connect connect_again connect' connect_again' : result Connection.t)
    (watcher_ipc watcher_ipc' : option Connection.t) (s : World) :
  (load_config CONFIG_FILE file s).1 = Ok true →
  ConfigFile.exists_ later = true →
  ConfigFile.getmtime later = ConfigFile.getmtime file →
  let s1 := (watch_config_tick CONFIG_FILE file connect connect_again
               watcher_ipc s).2 in
  watch_config_tick CONFIG_FILE later connect' connect_again' watcher_ipc' s1
  = (Ok watcher_ipc', s1).
Proof.
  intros Hload Hex Hmt s1.
  destruct (load_config CONFIG_FILE file s) as [r s0] eqn:Hl0.
  simpl in Hload. subst r.
  destruct (load_config_true _ _ _ _ Hl0) as (m & rules & n & Hm & _ & _ & _ & Hs0).
  destruct (watch_config_tick_changed CONFIG_FILE file connect connect_again
              watcher_ipc s s0 Hl0) as (_ & _ & _ & Hmtime & _).
  fold s1 in Hmtime.
  assert (load_config CONFIG_FILE later s1 = (Ok false, s1)) as Hidle.
  { rewrite load_config_eq, Hex, Hmt, Hm. cbn [negb].
    rewrite Hmtime. assert (LAST_MTIME s0 = m) as -> by (by rewrite Hs0).
    by rewrite Z.leb_refl. }
  rewrite watch_config_tick_idle; rewrite Hidle; [done | discriminate].
Qed.

Lemma watcher_does_not_retry_sweep_witness :
  let s1 := (watch_config_tick "tab_colors.json" Ex.file_rewritten
               (Ok Ex.ipc_broken) (Raise "no socket") None Ex.world_applied).2 in
  sent s1 = sent Ex.world_applied ∧
  APPLIED_COLORS s1 = ∅ ∧
  watch_config_tick "tab_colors.json" Ex.file_rewritten
    (Ok Ex.ipc_ok) (Ok Ex.ipc_ok) (Some Ex.ipc_ok) s1
  = (Ok (Some Ex.ipc_ok), s1).
Proof.
  intros s1. split; [reflexivity |]. split; [reflexivity |].
  apply (watcher_does_not_retry_sweep "tab_colors.json" Ex.file_rewritten
           Ex.file_rewritten (Ok Ex.ipc_broken) (Raise "no socket")
           (Ok Ex.ipc_ok) (Ok Ex.ipc_ok) None (Some Ex.ipc_ok) Ex.world_applied).
  - vm_compute. reflexivity.
  - reflexivity.
  - reflexivity.
Defined.

Lemma flat_map_commands_no_rules (leaves : list Con.t) :
  flat_map (commands_for []) leaves = (λ w, title_cmd w PNone PNone) <$> leaves.
Proof. induction leaves as [|w ws IH]; [done |]. simpl. by rewrite IH. Qed.

(** X20: a first start without a configuration file.  With a connection
    that delivers and a tree of windows with distinct ids, the start-up
    sequence keeps the rule list empty, notes the missing file, and sends
    every window the bare format, one command per window in the order of
    the tree. *)
Theorem startup_without_config_resets_titles (CONFIG_FILE : string)
    (file : ConfigFile.t) (ipc : Connection.t) (leaves : list Con.t) :
  ConfigFile.exists_ file = false →
  Connection.get_tree ipc = Ok leaves →
  NoDup (Con.id <$> leaves) →
  (∀ cmd, Connection.command ipc cmd = None) →
  let s' := (main_startup CONFIG_FILE file (Ok ipc) initial_world).2 in
  main_startup CONFIG_FILE file (Ok ipc) initial_world = (Ok ipc, s') ∧
  COLOR_RULES s' = [] ∧
  stderr s' = ["Config file not found: " +:+ CONFIG_FILE] ∧
  sent s' = (λ w, title_cmd w PNone PNone) <$> leaves.
Proof.
  intros Hex Htree Hnd Hok.
  unfold main_startup, mbind, mret, M_bind, M_ret, lift.
  rewrite load_config_eq, Hex. cbn [negb].
  set (s0 := (report (not_found_msg CONFIG_FILE) initial_world).2).
  assert (s0 = set_LAST_ERROR (not_found_msg CONFIG_FILE)
                 (add_stderr (not_found_msg CONFIG_FILE) initial_world)) as Hs0
    by reflexivity.
  rewrite (apply_to_all_windows_eq _ _ _ Htree).
  destruct (for_each_fresh ipc leaves s0 Hnd) as (Hrun & Hsent & _).
  { intros w _. exists (PNone, PNone). rewrite Hs0.
    split; [reflexivity |]. split; [apply already_applied_empty | apply Hok]. }
  rewrite Hrun. cbn [fst snd].
  pose proof (for_each_same_config ipc leaves s0) as (Hrules & _).
  repeat split.
  - by rewrite Hrules, Hs0.
  - assert (stderr (for_each leaves (match_and_apply ipc) s0).2 = stderr s0) as ->.
    { clear. generalize s0. induction leaves as [|w ws IH]; intros s; [done |].
      rewrite for_each_cons.
      assert (stderr (match_and_apply ipc w s).2 = stderr s) as Hstep.
      { destruct (scan_rules (props_of w) (COLOR_RULES s)) as [d|e] eqn:Hd.
        - rewrite (match_and_apply_decided _ _ _ _ Hd).
          by destruct (apply_title_format_cases ipc w d.1 d.2 s)
            as [-> | [-> | [e ->]]].
        - by rewrite (match_and_apply_raise _ _ _ _ Hd). }
      destruct (match_and_apply ipc w s) as [[[]|e] s1]; simpl in *; [| done].
      by rewrite IH. }
    by rewrite Hs0.
  - rewrite Hsent, Hs0. simpl. apply flat_map_commands_no_rules.
Qed.

Lemma startup_without_config_resets_titles_witness :
  sent (main_startup "tab_colors.json"
          (ConfigFile.mk false (Raise "gone") (Raise "gone"))
          (Ok Ex.ipc_ok) initial_world).2
  = [title_cmd Ex.browser PNone PNone; title_cmd Ex.xterm PNone PNone].
Proof.
  destruct (startup_without_config_resets_titles "tab_colors.json"
              (ConfigFile.mk false (Raise "gone") (Raise "gone"))
              Ex.ipc_ok [Ex.browser; Ex.xterm]) as (_ & _ & _ & Hsent).
  - reflexivity.
  - reflexivity.
  - apply (bool_decide_unpack _). by vm_compute.
  - reflexivity.
  - exact Hsent.
Defined.
